(** * Anonymous chat bot (bot.py): matchmaking, persistence, rate limiting
      and message dispatch, with the properties of its specification.

    The module-level globals [queue], [sessions] and [last_time] of bot.py,
    together with the snapshot file [anon_state.json], form one explicit
    [State] that every operation threads.  Calls to the Telegram transport
    are recorded as a trace of attempted actions; whether an attempt raises
    is decided by an oracle, because the handlers wrap each call in
    [try]/[except]. *)

From Stdlib Require Import ZArith String Ascii Decimal DecimalString DecimalPos DecimalZ Floats.
From stdpp Require Import gmap strings list fin_maps.

Local Open Scope Z_scope.
Set Warnings "-register-all".

(** ** Python values and builtins used by bot.py *)

Module Py.

(** What [json.load] can return. *)
Inductive json : Type :=
| JNull
| JBool (b : bool)
| JInt (z : Z)
| JFloat (f : float)
| JStr (s : string)
| JArr (l : list json)
| JObj (l : list (string * json)).

(** The exceptions the modelled code can meet; all derive from
    [Exception], so a bare [except Exception] catches each of them. *)
Inductive exn : Type :=
| ValueError | TypeError | AttributeError | OverflowError
| JSONDecodeError | OSError.

(** [if x:] on an integer. *)
Definition truthy_int (z : Z) : bool := negb (z =? 0).

(** [if x:] on a float: every value but [0.0] and [-0.0], NaN included. *)
Definition truthy_float (f : float) : bool := negb (PrimFloat.eqb f 0%float).

(** [if x:] on a decoded JSON value. *)
Definition truthy (j : json) : bool :=
  match j with
  | JNull => false
  | JBool b => b
  | JInt z => truthy_int z
  | JFloat f => truthy_float f
  | JStr s => negb (String.eqb s "")
  | JArr l => match l with [] => false | _ => true end
  | JObj l => match l with [] => false | _ => true end
  end.

(** [x or d]. *)
Definition or_else (x d : json) : json := if truthy x then x else d.

(** [len(x)]; a [TypeError] on values without a length. *)
Definition len (j : json) : exn + nat :=
  match j with
  | JStr s => inr (String.length s)
  | JArr l => inr (List.length l)
  | JObj l => inr (List.length l)
  | _ => inl TypeError
  end.

(** The [dict] that [json.load] builds from the members of an object, in
    document order: a repeated key keeps its first position and takes the
    last value. *)
Fixpoint dict_set (key : string) (v : json) (d : list (string * json))
  : list (string * json) :=
  match d with
  | [] => [(key, v)]
  | (k, w) :: d' =>
      if String.eqb k key then (k, v) :: d' else (k, w) :: dict_set key v d'
  end.

Definition dict_of_members (l : list (string * json)) : list (string * json) :=
  foldl (fun d kv => dict_set kv.1 kv.2 d) [] l.

Fixpoint assoc (key : string) (d : list (string * json)) : option json :=
  match d with
  | [] => None
  | (k, v) :: d' => if String.eqb k key then Some v else assoc key d'
  end.

(** [data.get(key, default)]; only a [dict] has the method. *)
Definition get (data : json) (key : string) (dflt : json) : exn + json :=
  match data with
  | JObj l => inr (default dflt (assoc key (dict_of_members l)))
  | _ => inl AttributeError
  end.

(** [x.items()]; only a [dict] has the method. *)
Definition items (x : json) : exn + list (string * json) :=
  match x with
  | JObj l => inr (dict_of_members l)
  | _ => inl AttributeError
  end.

(** [str(n)] for an integer, which is also how [json.dump] writes an
    integer dictionary key: a minus sign for negatives, then the decimal
    digits without leading zeros. *)
Definition str (z : Z) : string := NilZero.string_of_int (Z.to_int z).

(** [s.strip()] on ASCII text: the characters [str.isspace] accepts are
    tab to carriage return, the four separators 28 to 31 and the space. *)
Definition is_space (c : ascii) : bool :=
  let n := nat_of_ascii c in
  ((9 <=? n) && (n <=? 13) || (28 <=? n) && (n <=? 32))%nat.

Fixpoint lstrip (s : string) : string :=
  match s with
  | String c s' => if is_space c then lstrip s' else s
  | EmptyString => EmptyString
  end.

Fixpoint rstrip (s : string) : string :=
  match s with
  | EmptyString => EmptyString
  | String c s' =>
      match rstrip s' with
      | EmptyString => if is_space c then EmptyString else String c EmptyString
      | r => String c r
      end
  end.

Definition strip (s : string) : string := rstrip (lstrip s).

Definition digit_of (c : ascii) : option (uint -> uint) :=
  match c with
  | "0" => Some D0 | "1" => Some D1 | "2" => Some D2 | "3" => Some D3
  | "4" => Some D4 | "5" => Some D5 | "6" => Some D6 | "7" => Some D7
  | "8" => Some D8 | "9" => Some D9 | _ => None
  end%char.

Fixpoint scan_digits (after_digit : bool) (s : string) : option uint :=
  match s with
  | EmptyString => if after_digit then Some Nil else None
  | String c s' =>
      if Ascii.eqb c "_" then
        if after_digit then scan_digits false s' else None
      else
        match digit_of c with
        | Some d => d <$> scan_digits true s'
        | None => None
        end
  end.

(** The white space [int] itself skips around the digits of ASCII text:
    tab to carriage return and the space, not the separators 28 to 31. *)
Definition is_int_space (c : ascii) : bool :=
  let n := nat_of_ascii c in
  ((9 <=? n) && (n <=? 13) || (n =? 32))%nat.

Fixpoint int_lstrip (s : string) : string :=
  match s with
  | String c s' => if is_int_space c then int_lstrip s' else s
  | EmptyString => EmptyString
  end.

Fixpoint int_rstrip (s : string) : string :=
  match s with
  | EmptyString => EmptyString
  | String c s' =>
      match int_rstrip s' with
      | EmptyString =>
          if is_int_space c then EmptyString else String c EmptyString
      | r => String c r
      end
  end.

Definition int_strip (s : string) : string := int_rstrip (int_lstrip s).

(** All characters are ASCII (the top bit of each byte is clear). *)
Fixpoint is_ascii (s : string) : bool :=
  match s with
  | EmptyString => true
  | String (Ascii _ _ _ _ _ _ _ b7) s' => negb b7 && is_ascii s'
  end.

(** [int(s)] for ASCII text: white space around is skipped, one sign is
    allowed, and the rest must be decimal digits, with single underscores
    allowed between digits.  (The interpreter's cap on the length of
    decimal conversions is left out.) *)
Definition ascii_int (s : string) : exn + Z :=
  let parse (neg : bool) (r : string) : exn + Z :=
    match scan_digits false r with
    | Some u => inr (if neg then - Z.of_uint u else Z.of_uint u)
    | None => inl ValueError
    end in
  match int_strip s with
  | String "-" r => parse true r
  | String "+" r => parse false r
  | t => parse false t
  end.

(** [int(x)] for a float: truncation towards zero; NaN and the infinities
    raise. *)
Definition int_of_float (f : float) : exn + Z :=
  match Prim2SF f with
  | S754_zero _ => inr 0
  | S754_infinity _ => inl OverflowError
  | S754_nan => inl ValueError
  | S754_finite neg m e =>
      let a := Z.shiftl (Z.pos m) e in
      inr (if neg then - a else a)
  end.

Section Int.

(** What [int] answers on text with a character outside ASCII, where it
    consults the interpreter's Unicode tables (digits and blanks of other
    scripts); the tables are not part of this development, so the answer
    is a parameter. *)
Variable unicode_int : string -> exn + Z.

(** [int(s)] for a string. *)
Definition int_of_str (s : string) : exn + Z :=
  if is_ascii s then ascii_int s else unicode_int s.

(** [int(x)] on a decoded JSON value. *)
Definition int (x : json) : exn + Z :=
  match x with
  | JInt z => inr z
  | JBool b => inr (if b then 1 else 0)
  | JFloat f => int_of_float f
  | JStr s => int_of_str s
  | JNull | JArr _ | JObj _ => inl TypeError
  end.

End Int.

(** Sequencing of computations that may raise. *)
Definition bind {A B : Type} (c : exn + A) (k : A -> exn + B) : exn + B :=
  match c with inl e => inl e | inr a => k a end.

End Py.

Notation "'let!' x ':=' c 'in' k" := (Py.bind c (fun x => k))
  (at level 10, x name, c at level 100, k at level 200).

(** ** The program state: the globals of bot.py and the snapshot file *)

(** What [anon_state.json] holds, as [load_state] can observe it: no file,
    a file that cannot be opened, bytes that [json.load] rejects, or the
    value [json.load] returns. *)
Inductive snapshot : Type :=
| NoFile
| Unreadable
| Malformed
| Document (j : Py.json).

(** How one attempt to write the snapshot ends. *)
Inductive write_outcome : Type :=
| WriteOk      (* the file now holds the new document *)
| OpenFails    (* [open] raised: the file is as before *)
| DumpFails.   (* [json.dump] raised after [open] truncated the file *)

Record State : Type := mkState {
  queue : list Z;
  sessions : gmap Z Z;
  last_time : gmap Z float;
  disk : snapshot
}.

Definition set_queue (q : list Z) (st : State) : State :=
  mkState q (sessions st) (last_time st) (disk st).
Definition set_sessions (m : gmap Z Z) (st : State) : State :=
  mkState (queue st) m (last_time st) (disk st).
Definition set_last_time (lt : gmap Z float) (st : State) : State :=
  mkState (queue st) (sessions st) lt (disk st).
Definition set_disk (d : snapshot) (st : State) : State :=
  mkState (queue st) (sessions st) (last_time st) d.

(** The state of a process that has just started, before [load_state]. *)
Definition initial (d : snapshot) : State := mkState [] ∅ ∅ d.

(** The value [json.dump] writes for [{"queue": queue, "sessions":
    sessions}]: integer keys become their [str]. *)
Definition dump_sessions (m : gmap Z Z) : list (string * Py.json) :=
  (fun kv => (Py.str kv.1, Py.JInt kv.2)) <$> map_to_list m.

Definition dump_state (q : list Z) (m : gmap Z Z) : Py.json :=
  Py.JObj [("queue"%string, Py.JArr (Py.JInt <$> q));
           ("sessions"%string, Py.JObj (dump_sessions m))].

(** [save_state]: any exception is logged and swallowed. *)
Definition save_state (io : write_outcome) (st : State) : State :=
  match io with
  | WriteOk => set_disk (Document (dump_state (queue st) (sessions st))) st
  | OpenFails => st
  | DumpFails => set_disk Malformed st
  end.

(** [load_state] assigns whatever [json.load] produced, so right after it
    the global [queue] is a dynamically typed value; [Globals] is that
    view of the two persisted globals. *)
Record Globals : Type := mkGlobals {
  g_queue : Py.json;
  g_sessions : gmap Z Z
}.

Definition globals_of (st : State) : Globals :=
  mkGlobals (Py.JArr (Py.JInt <$> queue st)) (sessions st).

Definition empty_globals : Globals := mkGlobals (Py.JArr []) ∅.

Section Loading.

(** [int] on text outside ASCII, see [Py.int_of_str]. *)
Variable unicode_int : string → Py.exn + Z.

(** [{int(k): int(v) for k, v in raw_sessions.items()}]: items in order,
    a later equal key overwrites, the first failing conversion raises. *)
Definition convert_sessions (its : list (string * Py.json)) : Py.exn + gmap Z Z :=
  foldl (fun acc kv =>
           let! m := acc in
           let! k := Py.int_of_str unicode_int kv.1 in
           let! v := Py.int unicode_int kv.2 in
           inr (<[k:=v]> m))
        (inr ∅) its.

(** The [try] block of [load_state]: [None] when the file does not exist,
    otherwise the values assigned to [queue] and [sessions].  The last step
    is [len(queue)], evaluated for the log line. *)
Definition load_body (d : snapshot) : Py.exn + option Globals :=
  match d with
  | NoFile => inr None
  | Unreadable => inl Py.OSError
  | Malformed => inl Py.JSONDecodeError
  | Document data =>
      let! q0 := Py.get data "queue" (Py.JArr []) in
      let q := Py.or_else q0 (Py.JArr []) in
      let! r0 := Py.get data "sessions" (Py.JObj []) in
      let raw_sessions := Py.or_else r0 (Py.JObj []) in
      let! its := Py.items raw_sessions in
      let! m := convert_sessions its in
      let! _ := Py.len q in
      inr (Some (mkGlobals q m))
  end.

(** [load_state]: the handler of [except Exception] resets both globals. *)
Definition load_state (d : snapshot) (g : Globals) : Globals :=
  match load_body d with
  | inr (Some g') => g'
  | inr None => g
  | inl _ => empty_globals
  end.

End Loading.

(** ** Matchmaker *)

Module Matchmaker.

(** [queue.remove(uid)]: drops the first occurrence. *)
Fixpoint remove_first (x : Z) (l : list Z) : list Z :=
  match l with
  | [] => []
  | y :: l' => if decide (y = x) then l' else y :: remove_first x l'
  end.

Definition pair (a b : Z) (io : write_outcome) (st : State) : State :=
  save_state io (set_sessions (<[b:=a]> (<[a:=b]> (sessions st))) st).

Definition unpair (uid : Z) (io : write_outcome) (st : State) : option Z * State :=
  let other := sessions st !! uid in
  let m1 := delete uid (sessions st) in
  let m2 :=
    match other with
    | Some o => if Py.truthy_int o then delete o m1 else m1
    | None => m1
    end in
  (other, save_state io (set_sessions m2 st)).

Definition find_partner (uid : Z) (io : write_outcome) (st : State)
  : option Z * State :=
  match sessions st !! uid with
  | Some partner => (Some partner, st)
  | None =>
      let q := if decide (uid ∈ queue st) then remove_first uid (queue st)
               else queue st in
      match q with
      | other :: q' => (Some other, pair uid other io (set_queue q' st))
      | [] => (None, save_state io (set_queue (q ++ [uid]) st))
      end
  end.

(** The state change of [cmd_anon_stop] together with the partner that its
    call of [unpair] returned: the specification's [endSession]. *)
Definition end_session (uid : Z) (io1 io2 : write_outcome) (st : State)
  : option Z * State :=
  let '(partner, st1) := unpair uid io1 st in
  let st2 :=
    if decide (uid ∈ queue st1)
    then save_state io2 (set_queue (remove_first uid (queue st1)) st1)
    else st1 in
  (partner, st2).

(** A call of the specification's interface, with the outcome of each
    snapshot write it may perform. *)
Inductive call : Type :=
| RequestPartner (uid : Z) (io : write_outcome)
| EndSession (uid : Z) (io1 io2 : write_outcome).

Definition step (c : call) (st : State) : State :=
  match c with
  | RequestPartner uid io => (find_partner uid io st).2
  | EndSession uid io1 io2 => (end_session uid io1 io2 st).2
  end.

Definition run (cs : list call) (st : State) : State :=
  foldl (fun s c => step c s) st cs.

Definition caller (c : call) : Z :=
  match c with RequestPartner uid _ | EndSession uid _ _ => uid end.

(** The invariants of the data model. *)
Definition symmetric (m : gmap Z Z) : Prop :=
  ∀ a b, m !! a = Some b → m !! b = Some a.
Definition irreflexive (m : gmap Z Z) : Prop :=
  ∀ a, m !! a ≠ Some a.
Definition queue_table_disjoint (q : list Z) (m : gmap Z Z) : Prop :=
  ∀ a, a ∈ q → m !! a = None.

Definition pairing_inv (st : State) : Prop :=
  symmetric (sessions st) ∧ irreflexive (sessions st) ∧
  queue_table_disjoint (queue st) (sessions st).

End Matchmaker.

(** ** Rate limiter *)

(** [RATE_LIMIT = 1.3], the double nearest to it. *)
Definition RATE_LIMIT : float := 0x1.4cccccccccccdp+0%float.

(** [rate_limited]; [now] is the value [time.time()] returned. *)
Definition rate_limited (now : float) (uid : Z) (st : State) : bool * State :=
  let last := last_time st !! uid in
  let throttled :=
    match last with
    | Some l => Py.truthy_float l && PrimFloat.ltb (PrimFloat.sub now l) RATE_LIMIT
    | None => false
    end in
  if throttled then (true, st)
  else (false, set_last_time (<[uid:=now]> (last_time st)) st).

(** ** Transport and handlers *)

(** A call of the bot API.  A handler's trace lists the calls it attempted,
    in order. *)
Inductive action : Type :=
| SendMessage (chat : Z) (text : string)
| ForwardMessage (chat from_chat message : Z)
| CopyMessage (chat from_chat message : Z)
| SendChatAction (chat : Z) (act : string).

(** An inbound message: the text, where it came from, and for each kind of
    attachment whether the field is set. *)
Record Message : Type := mkMessage {
  text : option string;
  chat_id : Z;
  message_id : Z;
  photo : bool;
  video : bool;
  audio : bool;
  voice : bool;
  document : bool;
  sticker : bool;
  animation : bool;
  video_note : bool
}.

(** An update; [effective_user] is the sender's id (the handlers read it
    without a test, so updates without a sender are left out). *)
Record Update : Type := mkUpdate {
  effective_message : option Message;
  effective_user : Z
}.

Definition has_attachment (msg : Message) : bool :=
  photo msg || video msg || audio msg || voice msg || document msg ||
  sticker msg || animation msg || video_note msg.

(** [msg.text and msg.text.startswith("/")]. *)
Definition is_slash_text (msg : Message) : bool :=
  match text msg with
  | Some (String "/" _) => true
  | _ => false
  end.

(** The fixed texts (the leading pictographs of the originals are left
    out). *)
Definition MENU_TEXT : string :=
  "Anonymous Bot Activated. Commands: /anon_start /anon_next /anon_stop /status".
Definition NOT_CONNECTED_TEXT : string :=
  "You are not connected to a partner. Use /anon_start".
Definition PARTNER_LEFT_TEXT : string := "Partner disconnected.".
Definition YOU_LEFT_TEXT : string := "You left the chat.".

Section Handlers.

(** Configuration read from the environment at import time. *)
Variable GROUP_ID : option Z.
Variable ADMIN_IDS : list Z.

(** The transport: [net a = Some e] when the call [a] raises an exception
    whose text is [e]. *)
Variable net : action → option string.

(** [send_menu]: one message, failure swallowed. *)
Definition send_menu (chat : Z) : list action := [SendMessage chat MENU_TEXT].

(** [notify_admins]: one attempt per administrator, each on its own. *)
Definition notify_admins (msg : string) : list action :=
  (fun adm => SendMessage adm ("[ADMIN] " ++ msg)) <$> ADMIN_IDS.

(** [try: send_message(chat, msg); send_menu(chat)] with the exception
    swallowed: the menu is skipped when the message raises. *)
Definition send_with_menu (chat : Z) (msg : string) : list action :=
  let a := SendMessage chat msg in
  match net a with
  | None => a :: send_menu chat
  | Some _ => [a]
  end.

(** Step 1 of [handle_all_messages]: the mirror to the moderation group. *)
Definition mirror (msg : Message) : list action :=
  match GROUP_ID with
  | Some g =>
      if Py.truthy_int g && has_attachment msg then
        let a := ForwardMessage g (chat_id msg) (message_id msg) in
        match net a with
        | None => [a]
        | Some e => a :: notify_admins ("Group forward failed: " ++ e)
        end
      else []
  | None => []
  end.

(** [copy_message] to the partner, failure reported to the admins. *)
Definition relay (partner : Z) (msg : Message) : list action :=
  let a := CopyMessage partner (chat_id msg) (message_id msg) in
  match net a with
  | None => [a]
  | Some e => a :: notify_admins ("Relay failed: " ++ e)
  end.

Definition handle_all_messages (now : float) (upd : Update) (st : State)
  : State * list action :=
  match effective_message upd with
  | None => (st, [])
  | Some msg =>
      let uid := effective_user upd in
      if is_slash_text msg then (st, [])
      else
        let t1 := mirror msg in
        match sessions st !! uid with
        | Some _ =>
            let '(limited, st') := rate_limited now uid st in
            if limited then (st', t1 ++ [SendChatAction uid "typing"])
            else
              match sessions st' !! uid with
              | Some partner =>
                  if Py.truthy_int partner then (st', t1 ++ relay partner msg)
                  else (st', t1)
              | None => (st', t1)
              end
        | None => (st, t1 ++ send_with_menu uid NOT_CONNECTED_TEXT)
        end
  end.

(** [cmd_anon_stop]; [io1] and [io2] are the outcomes of its two snapshot
    writes. *)
Definition cmd_anon_stop (io1 io2 : write_outcome) (upd : Update) (st : State)
  : State * list action :=
  let uid := effective_user upd in
  let '(partner, st1) := Matchmaker.unpair uid io1 st in
  let t1 :=
    match partner with
    | Some p => if Py.truthy_int p then send_with_menu p PARTNER_LEFT_TEXT else []
    | None => []
    end in
  let st2 :=
    if decide (uid ∈ queue st1)
    then save_state io2
           (set_queue (Matchmaker.remove_first uid (queue st1)) st1)
    else st1 in
  (st2, t1 ++ send_with_menu uid YOU_LEFT_TEXT).

End Handlers.

(** ** Configuration and the remaining command handlers *)

(** [env.split(",")]: the pieces between the commas, empty ones kept. *)
Fixpoint split_comma (s : string) : list string :=
  match s with
  | EmptyString => [EmptyString]
  | String c s' =>
      if Ascii.eqb c "," then EmptyString :: split_comma s'
      else
        match split_comma s' with
        | h :: t => String c h :: t
        | [] => [String c EmptyString]
        end
  end.

Section Configuration.

(** [int] on text outside ASCII, see [Py.int_of_str]. *)
Variable unicode_int : string → Py.exn + Z.

(** The loop of [_parse_admins]: [int(p)] for each part, a part that
    raises is skipped. *)
Fixpoint parse_parts (parts : list string) : list Z :=
  match parts with
  | [] => []
  | p :: parts' =>
      match Py.int_of_str unicode_int p with
      | inr z => z :: parse_parts parts'
      | inl _ => parse_parts parts'
      end
  end.

(** [_parse_admins]; the argument is [None] or a string. *)
Definition _parse_admins (env : option string) : list Z :=
  match env with
  | None => []
  | Some e =>
      if String.eqb e "" then []
      else
        parse_parts
          (List.filter (fun p => negb (String.eqb p ""))
                       (Py.strip <$> split_comma e))
  end.

(** The module-level computation of [GROUP_ID] from the value of the
    environment variable ([""] when it is not set). *)
Definition GROUP_ID_of_env (env : string) : option Z :=
  let GROUP_ID_RAW := Py.strip env in
  if String.eqb GROUP_ID_RAW "" then None
  else
    match Py.int_of_str unicode_int GROUP_ID_RAW with
    | inr z => Some z
    | inl _ => None
    end.

End Configuration.

(** How [os.remove] on the snapshot ends. *)
Inductive remove_outcome : Type :=
| RemoveOk
| RemoveFails.

(** The three answers of [cmd_status]. *)
Inductive status : Type :=
| Connected
| Waiting
| NotInChat.

Definition status_of (uid : Z) (st : State) : status :=
  match sessions st !! uid with
  | Some _ => Connected
  | None => if decide (uid ∈ queue st) then Waiting else NotInChat
  end.

Definition status_text (s : status) : string :=
  match s with
  | Connected => "Connected"
  | Waiting => "Waiting"
  | NotInChat => "Not in chat"
  end.

Definition CONNECTED_TEXT : string := "Partner connected.".
Definition NEW_PARTNER_TEXT : string := "New partner connected.".
Definition SEARCHING_TEXT : string := "Searching for partner...".
Definition UNAUTHORIZED_TEXT : string := "Unauthorized.".
Definition CLEARED_TEXT : string := "State cleared.".

Section Commands.

Variable ADMIN_IDS : list Z.
Variable net : action → option string.

Definition is_admin (uid : Z) : bool := bool_decide (uid ∈ ADMIN_IDS).

(** [await update.message.reply_text(msg)] followed by [rest]: the reply
    goes to the chat of the message and is not guarded, so when it raises
    (or when the update carries no message) the rest of the handler is
    skipped.  [effective_message] stands for [update.message]: command
    handlers are modelled on message updates. *)
Definition reply_then (upd : Update) (msg : string) (rest : list action)
  : list action :=
  match effective_message upd with
  | None => []
  | Some m =>
      let a := SendMessage (chat_id m) msg in
      match net a with
      | None => a :: rest
      | Some _ => [a]
      end
  end.

(** [try: send_message(uid, msg); send_message(partner, msg)] with the
    exception swallowed. *)
Definition notify_both (uid partner : Z) (msg : string) : list action :=
  let a := SendMessage uid msg in
  match net a with
  | None => [a; SendMessage partner msg]
  | Some _ => [a]
  end.

Definition cmd_anon_start (io : write_outcome) (upd : Update) (st : State)
  : State * list action :=
  let uid := effective_user upd in
  let '(partner, st') := Matchmaker.find_partner uid io st in
  let searching := SendMessage uid SEARCHING_TEXT :: send_menu uid in
  match partner with
  | Some p =>
      if Py.truthy_int p
      then (st', notify_both uid p CONNECTED_TEXT ++ send_menu uid ++ send_menu p)
      else (st', searching)
  | None => (st', searching)
  end.

Definition cmd_anon_next (io1 io2 : write_outcome) (upd : Update) (st : State)
  : State * list action :=
  let uid := effective_user upd in
  let '(old, st1) := Matchmaker.unpair uid io1 st in
  let t1 :=
    match old with
    | Some o => if Py.truthy_int o then send_with_menu net o PARTNER_LEFT_TEXT else []
    | None => []
    end in
  let '(partner, st2) := Matchmaker.find_partner uid io2 st1 in
  let searching := send_with_menu net uid SEARCHING_TEXT in
  match partner with
  | Some p =>
      if Py.truthy_int p
      then (st2, t1 ++ notify_both uid p NEW_PARTNER_TEXT
                    ++ send_menu uid ++ send_menu p)
      else (st2, t1 ++ searching)
  | None => (st2, t1 ++ searching)
  end.

Definition cmd_status (upd : Update) (st : State) : State * list action :=
  let uid := effective_user upd in
  (st, reply_then upd (status_text (status_of uid st)) (send_menu uid)).

(** [cmd_clear_state]: the globals [queue] and [sessions] are rebound to
    empty values, the snapshot is removed when it exists ([rm] is how the
    removal ends; a failure is swallowed); [last_time] is not touched. *)
Definition cmd_clear_state (rm : remove_outcome) (upd : Update) (st : State)
  : State * list action :=
  let uid := effective_user upd in
  if negb (is_admin uid) then (st, reply_then upd UNAUTHORIZED_TEXT [])
  else
    let d :=
      match disk st, rm with
      | NoFile, _ => NoFile
      | _, RemoveOk => NoFile
      | d, RemoveFails => d
      end in
    (mkState [] ∅ (last_time st) d,
     reply_then upd CLEARED_TEXT (send_menu uid)).

End Commands.

(** Whom a message may reach: a copy only the sender's current partner,
    and it is the very message; a forward only the configured group, for a
    message with an attachment; the typing signal the sender; a text the
    sender or an administrator. *)
Definition allowed_contact (GROUP_ID : option Z) (ADMIN_IDS : list Z)
    (upd : Update) (st : State) (a : action) : Prop :=
  match a with
  | CopyMessage c f m =>
      sessions st !! effective_user upd = Some c ∧
      ∃ msg, effective_message upd = Some msg ∧
             f = chat_id msg ∧ m = message_id msg
  | ForwardMessage g f m =>
      GROUP_ID = Some g ∧
      ∃ msg, effective_message upd = Some msg ∧
             has_attachment msg = true ∧
             f = chat_id msg ∧ m = message_id msg
  | SendChatAction c _ => c = effective_user upd
  | SendMessage c _ => c = effective_user upd ∨ c ∈ ADMIN_IDS
  end.

Definition is_copy (a : action) : bool :=
  match a with CopyMessage _ _ _ => true | _ => false end.

(** No character of the string is a comma. *)
Fixpoint no_comma (s : string) : Prop :=
  match s with
  | EmptyString => True
  | String c s' => Ascii.eqb c "," = false ∧ no_comma s'
  end.

(** Every character of the string is white space for [str.strip]. *)
Fixpoint all_space (s : string) : Prop :=
  match s with
  | EmptyString => True
  | String c s' => Py.is_space c = true ∧ all_space s'
  end.

(** Every snapshot write of the call succeeds. *)
Definition writes_ok (c : Matchmaker.call) : Prop :=
  match c with
  | Matchmaker.RequestPartner _ io => io = WriteOk
  | Matchmaker.EndSession _ io1 io2 => io1 = WriteOk ∧ io2 = WriteOk
  end.

(** A restart would find the queue and the pairing table as they are now:
    [load_state] on the snapshot, in a process that has just started, gives
    the current values. *)
Definition recoverable (unicode_int : string → Py.exn + Z) (st : State) : Prop :=
  load_state unicode_int (disk st) empty_globals = globals_of st.

(** The comma-separated decimal form of a list of identifiers. *)
Fixpoint join_ids (ids : list Z) : string :=
  match ids with
  | [] => EmptyString
  | [z] => Py.str z
  | z :: ids' => (Py.str z ++ String "," (join_ids ids'))%string
  end.

(** ** Predicates used by the statements *)

(** The data-model invariants, strengthened by what makes them inductive:
    the queue has no duplicates and the identifier 0 occurs nowhere. *)
Definition well_formed (st : State) : Prop :=
  Matchmaker.pairing_inv st ∧ NoDup (queue st) ∧
  (0 ∉ queue st) ∧ sessions st !! 0 = None.

(** A caller that has no partner and is not waiting. *)
Definition newcomer (uid : Z) (st : State) : Prop :=
  sessions st !! uid = None ∧ uid ∉ queue st.

(** Successive calls of [find_partner], with the value each returned. *)
Fixpoint request_all (cs : list (Z * write_outcome)) (st : State)
  : list (option Z) * State :=
  match cs with
  | [] => ([], st)
  | (uid, io) :: cs' =>
      let r := Matchmaker.find_partner uid io st in
      let rs := request_all cs' r.2 in
      (r.1 :: rs.1, rs.2)
  end.

(** Each caller of the sequence is a newcomer when its turn comes. *)
Fixpoint newcomers (cs : list (Z * write_outcome)) (st : State) : Prop :=
  match cs with
  | [] => True
  | (uid, io) :: cs' =>
      newcomer uid st ∧ newcomers cs' (Matchmaker.find_partner uid io st).2
  end.

(** The typed reading of a loaded queue: a list of integers. *)
Definition as_int (j : Py.json) : option Z :=
  match j with Py.JInt z => Some z | _ => None end.

Definition queue_ints (j : Py.json) : option (list Z) :=
  match j with
  | Py.JArr l => mapM as_int l
  | _ => None
  end.


Definition raw_sessions (l : list (string * Py.json)) : Py.json :=
  default (Py.JObj []) (Py.assoc "sessions" (Py.dict_of_members l)).





Section Validation.

(** [int] on text outside ASCII, see [Py.int_of_str]. *)
Variable unicode_int : string → Py.exn + Z.





End Validation.

(** No character of the string is white space. *)
Fixpoint no_space (s : string) : Prop :=
  match s with
  | EmptyString => True
  | String c s' => Py.is_space c = false ∧ no_space s'
  end.

(** * Properties *)

(** ** Matchmaker: list and state lemmas *)

Section RemoveFirst.

Import Matchmaker.

Lemma remove_first_subset x y l : y ∈ remove_first x l → y ∈ l.
Proof.
  induction l as [|z l IH]; simpl; [done|].
  destruct (decide (z = x)) as [->|Hne]; intros Hy.
  - by right.
  - apply elem_of_cons in Hy as [->|Hy]; [left | right; auto].
Qed.

Lemma remove_first_NoDup x l : NoDup l → NoDup (remove_first x l).
Proof.
  induction 1 as [|z l Hz Hl IH]; simpl; [constructor|].
  destruct (decide (z = x)); [done|].
  constructor; [|done]. intros Hin. by apply Hz, (remove_first_subset x).
Qed.

Lemma remove_first_gone x l : NoDup l → x ∉ remove_first x l.
Proof.
  induction 1 as [|z l Hz Hl IH]; simpl; [by apply not_elem_of_nil|].
  destruct (decide (z = x)) as [->|Hne]; [done|].
  intros [->|Hin]%elem_of_cons; [done | by apply IH].
Qed.

Lemma remove_first_absent x l : x ∉ l → remove_first x l = l.
Proof.
  induction l as [|z l IH]; simpl; [done|]. intros Hx.
  destruct (decide (z = x)) as [->|Hne].
  - exfalso. apply Hx. by left.
  - f_equal. apply IH. intros Hin. apply Hx. by right.
Qed.

End RemoveFirst.

Section StateLemmas.

Lemma queue_save_state io st : queue (save_state io st) = queue st.
Proof. by destruct io. Qed.

Lemma sessions_save_state io st : sessions (save_state io st) = sessions st.
Proof. by destruct io. Qed.

Lemma last_time_save_state io st : last_time (save_state io st) = last_time st.
Proof. by destruct io. Qed.

End StateLemmas.

(** ** Matchmaker: the invariant on identifiers other than 0 *)

Section Invariant.

Import Matchmaker.

Lemma well_formed_initial d : well_formed (initial d).
Proof.
  repeat split; simpl; try done.
  - constructor.
  - apply not_elem_of_nil.
Qed.

Lemma find_partner_well_formed uid io st :
  uid ≠ 0 → well_formed st → well_formed (find_partner uid io st).2.
Proof.
  intros Hu ((Hsym & Hirr & Hdis) & Hnd & Hq0 & Hs0).
  unfold find_partner.
  destruct (sessions st !! uid) as [p|] eqn:Hp; simpl; [done|].
  set (q := if decide (uid ∈ queue st) then _ else _).
  assert (Hqsub : ∀ a, a ∈ q → a ∈ queue st).
  { intros a. subst q. case_decide; [apply remove_first_subset | done]. }
  assert (Hqnd : NoDup q).
  { subst q. case_decide; [by apply remove_first_NoDup | done]. }
  assert (Hqu : uid ∉ q).
  { subst q. case_decide; [by apply remove_first_gone | done]. }
  clearbody q.
  destruct q as [|other q']; simpl.
  - unfold well_formed, pairing_inv, queue_table_disjoint.
    rewrite queue_save_state, sessions_save_state; simpl.
    repeat split; try done.
    + by intros a ->%list_elem_of_singleton.
    + apply NoDup_singleton.
    + intros H0%list_elem_of_singleton. congruence.
  - apply NoDup_cons in Hqnd as [Ho Hq'].
    assert (Hou : other ≠ uid).
    { intros ->. apply Hqu. by left. }
    assert (Hos : sessions st !! other = None).
    { apply Hdis, Hqsub. by left. }
    assert (Ho0 : other ≠ 0).
    { intros ->. apply Hq0, Hqsub. by left. }
    unfold well_formed, pairing_inv, queue_table_disjoint, pair.
    rewrite queue_save_state, sessions_save_state; simpl.
    repeat split.
    + intros a b. rewrite !lookup_insert.
      repeat case_decide; simplify_eq; try done; intros Hab;
        try congruence; try (apply Hsym in Hab; congruence).
    + intros a. rewrite !lookup_insert.
      repeat case_decide; simplify_eq; try congruence; apply Hirr.
    + intros a Ha. rewrite !lookup_insert.
      repeat case_decide; simplify_eq; try done.
      * exfalso. apply Hqu. by right.
      * apply Hdis, Hqsub. by right.
    + done.
    + intros H0. apply Hq0, Hqsub. by right.
    + rewrite !lookup_insert. repeat case_decide; simplify_eq; done.
Qed.

Lemma unpair_well_formed uid io st :
  well_formed st → well_formed (unpair uid io st).2.
Proof.
  intros ((Hsym & Hirr & Hdis) & Hnd & Hq0 & Hs0).
  unfold unpair, well_formed, pairing_inv, queue_table_disjoint; simpl.
  rewrite queue_save_state, sessions_save_state; simpl.
  destruct (sessions st !! uid) as [o|] eqn:Ho.
  - assert (Hou : sessions st !! o = Some uid) by by apply Hsym.
    assert (Ho0 : Py.truthy_int o = true).
    { unfold Py.truthy_int. destruct (Z.eqb_spec o 0) as [->|]; [congruence|done]. }
    rewrite Ho0. repeat split; try done.
    + intros a b. rewrite !lookup_delete.
      repeat case_decide; simplify_eq; try done; intros Hab;
        apply Hsym in Hab; congruence.
    + intros a. rewrite !lookup_delete.
      repeat case_decide; simplify_eq; try done; apply Hirr.
    + intros a Ha. rewrite !lookup_delete.
      repeat case_decide; simplify_eq; try done; by apply Hdis.
    + rewrite !lookup_delete. repeat case_decide; done.
  - rewrite delete_id by done. repeat split; done.
Qed.

Lemma end_session_well_formed uid io1 io2 st :
  well_formed st → well_formed (end_session uid io1 io2 st).2.
Proof.
  intros Hwf. unfold end_session.
  pose proof (unpair_well_formed uid io1 st Hwf) as Hwf1.
  destruct (unpair uid io1 st) as [partner st1]; simpl in *.
  case_decide; simpl; [|done].
  destruct Hwf1 as ((Hsym & Hirr & Hdis) & Hnd & Hq0 & Hs0).
  unfold well_formed, pairing_inv, queue_table_disjoint.
  rewrite queue_save_state, sessions_save_state; simpl.
  repeat split; try done.
  - intros a Ha. by apply Hdis, (remove_first_subset uid).
  - by apply remove_first_NoDup.
  - intros Hin. by apply Hq0, (remove_first_subset uid).
Qed.

Lemma step_well_formed c st :
  caller c ≠ 0 → well_formed st → well_formed (step c st).
Proof.
  destruct c as [uid io|uid io1 io2]; simpl; intros Hc Hwf.
  - by apply find_partner_well_formed.
  - by apply end_session_well_formed.
Qed.

(** Every run whose callers are all different from 0 keeps the pairing
    table symmetric and irreflexive and the queue disjoint from it. *)
Lemma run_well_formed cs st :
  Forall (fun c => caller c ≠ 0) cs → well_formed st → well_formed (run cs st).
Proof.
  unfold run. revert st.
  induction cs as [|c cs IH]; simpl; intros st Hcs Hwf; [done|].
  apply Forall_cons in Hcs as [Hc Hcs].
  by apply IH, step_well_formed.
Qed.

Lemma run_pairing_inv_nonzero cs d :
  Forall (fun c => caller c ≠ 0) cs → pairing_inv (run cs (initial d)).
Proof.
  intros Hcs. by apply (run_well_formed cs), well_formed_initial.
Qed.

End Invariant.

(** ** Matchmaker: what the calls return *)

Section MatchmakerCalls.

Import Matchmaker.

Lemma find_partner_newcomer uid io st h t :
  newcomer uid st → queue st = h :: t →
  find_partner uid io st = (Some h, pair uid h io (set_queue t st)).
Proof.
  intros [Hs Hq] Hqueue. unfold find_partner. rewrite Hs.
  rewrite decide_False by done. by rewrite Hqueue.
Qed.

Lemma queue_pair a b io st : queue (pair a b io st) = queue st.
Proof. unfold pair. by rewrite queue_save_state. Qed.

Lemma sessions_pair a b io st :
  sessions (pair a b io st) = <[b:=a]> (<[a:=b]> (sessions st)).
Proof. unfold pair. by rewrite sessions_save_state. Qed.

Lemma request_all_order cs : ∀ st l1 A l2 B k,
  newcomers cs st → queue st = l1 ++ A :: l2 → B ∉ l1 → A ≠ B →
  (request_all cs st).1 !! k = Some (Some B) →
  ∃ j, (j < k)%nat ∧ (request_all cs st).1 !! j = Some (Some A).
Proof.
  induction cs as [|[uid io] cs IH]; intros st l1 A l2 B k; simpl; [done|].
  intros [Hnew Hrest] Hq HB HAB Hk.
  destruct l1 as [|x l1]; simpl in Hq.
  - rewrite (find_partner_newcomer uid io st A l2) in * by done.
    destruct k as [|k]; simpl in Hk; [congruence|].
    exists 0%nat. split; [lia | done].
  - rewrite (find_partner_newcomer uid io st x (l1 ++ A :: l2)) in * by done.
    simpl in *.
    destruct k as [|k]; simpl in Hk.
    + exfalso. apply HB. simplify_eq. by left.
    + destruct (IH _ l1 A l2 B k Hrest) as (j & Hj & HA); try done.
      * by rewrite queue_pair.
      * intros Hin. apply HB. by right.
      * exists (S j). split; [lia | done].
Qed.

(** C2: a caller with no partner who is not waiting is paired with the
    head of a non-empty queue, which is popped; hence, over any sequence of
    such callers, an entry A that stands before every occurrence of B in
    the queue is handed out before B is. *)
Theorem find_partner_fifo :
  (∀ uid io st h t,
     newcomer uid st → queue st = h :: t →
     (find_partner uid io st).1 = Some h ∧
     queue (find_partner uid io st).2 = t ∧
     sessions (find_partner uid io st).2 = <[h:=uid]> (<[uid:=h]> (sessions st)))
  ∧
  (∀ cs st l1 A l2 B k,
     newcomers cs st → queue st = l1 ++ A :: l2 → B ∉ l1 → A ≠ B →
     (request_all cs st).1 !! k = Some (Some B) →
     ∃ j, (j < k)%nat ∧ (request_all cs st).1 !! j = Some (Some A)).
Proof.
  split.
  - intros uid io st h t Hnew Hq.
    rewrite (find_partner_newcomer uid io st h t) by done. simpl.
    by rewrite queue_pair, sessions_pair.
  - intros cs. apply request_all_order.
Qed.

(** C8: for a caller who already has a partner, [find_partner] returns
    that partner and the whole state, queue and pairing table included, is
    left as it was; a second call gives the same answer. *)
Theorem find_partner_idempotent uid io io' st p :
  sessions st !! uid = Some p →
  find_partner uid io st = (Some p, st) ∧
  find_partner uid io' (find_partner uid io st).2 = (Some p, st).
Proof.
  intros Hp. unfold find_partner. rewrite Hp. simpl. by rewrite Hp.
Qed.

End MatchmakerCalls.

Section MatchmakerWitnesses.

Import Matchmaker.

Lemma find_partner_fifo_witness :
  (find_partner 3 WriteOk (mkState [1; 2] ∅ ∅ NoFile)).1 = Some 1 ∧
  ∃ j, (j < 1)%nat ∧
    (request_all [(3, WriteOk); (4, WriteOk)] (mkState [1; 2] ∅ ∅ NoFile)).1 !! j
    = Some (Some 1).
Proof.
  split.
  - apply (proj1 find_partner_fifo 3 WriteOk (mkState [1; 2] ∅ ∅ NoFile) 1 [2]).
    + split; [reflexivity | by apply (bool_decide_unpack _)].
    + reflexivity.
  - apply (proj2 find_partner_fifo [(3, WriteOk); (4, WriteOk)]
             (mkState [1; 2] ∅ ∅ NoFile) [] 1 [2] 2 1%nat).
    + repeat split; try reflexivity; by apply (bool_decide_unpack _).
    + reflexivity.
    + by apply (bool_decide_unpack _).
    + discriminate.
    + reflexivity.
Defined.

Lemma find_partner_idempotent_witness :
  find_partner 1 WriteOk (mkState [] {[1 := 2; 2 := 1]} ∅ NoFile)
  = (Some 2, mkState [] {[1 := 2; 2 := 1]} ∅ NoFile) ∧
  find_partner 1 DumpFails
    (find_partner 1 WriteOk (mkState [] {[1 := 2; 2 := 1]} ∅ NoFile)).2
  = (Some 2, mkState [] {[1 := 2; 2 := 1]} ∅ NoFile).
Proof.
  apply (find_partner_idempotent 1 WriteOk DumpFails
           (mkState [] {[1 := 2; 2 := 1]} ∅ NoFile) 2).
  reflexivity.
Defined.

End MatchmakerWitnesses.

(** ** Matchmaker: ending a session *)

Section EndSession.

Import Matchmaker.

Lemma end_session_unfold uid io1 io2 st :
  end_session uid io1 io2 st =
  ((unpair uid io1 st).1,
   if decide (uid ∈ queue (unpair uid io1 st).2)
   then save_state io2
          (set_queue (remove_first uid (queue (unpair uid io1 st).2))
             (unpair uid io1 st).2)
   else (unpair uid io1 st).2).
Proof. unfold end_session. by destruct (unpair uid io1 st). Qed.

(** In a well-formed state a partner is never 0 and never waiting. *)
Lemma well_formed_partner st uid p :
  well_formed st → sessions st !! uid = Some p → p ≠ 0 ∧ p ∉ queue st.
Proof.
  intros ((Hsym & Hirr & Hdis) & Hnd & Hq0 & Hs0) Hp.
  apply Hsym in Hp. split.
  - intros ->. congruence.
  - intros Hin. apply Hdis in Hin. congruence.
Qed.

(** X3: When the queue has no duplicates and the caller's partner, if any, is
    not 0 and not waiting, ending a session does all the specification
    asks: the partner is returned, both entries leave the table, the caller
    leaves the queue, and afterwards neither of the two is paired or
    waiting. *)
Lemma end_session_spec uid io1 io2 st :
  NoDup (queue st) →
  (∀ p, sessions st !! uid = Some p → p ≠ 0 ∧ p ∉ queue st) →
  (end_session uid io1 io2 st).1 = sessions st !! uid ∧
  sessions (end_session uid io1 io2 st).2 =
    match sessions st !! uid with
    | Some p => delete p (delete uid (sessions st))
    | None => sessions st
    end ∧
  queue (end_session uid io1 io2 st).2 = remove_first uid (queue st) ∧
  sessions (end_session uid io1 io2 st).2 !! uid = None ∧
  (uid ∉ queue (end_session uid io1 io2 st).2) ∧
  ∀ p, sessions st !! uid = Some p →
       sessions (end_session uid io1 io2 st).2 !! p = None ∧
       p ∉ queue (end_session uid io1 io2 st).2.
Proof.
  intros Hnd Hpartner.
  rewrite end_session_unfold.
  assert (Hr : (unpair uid io1 st).1 = sessions st !! uid) by done.
  assert (Hq1 : queue (unpair uid io1 st).2 = queue st).
  { unfold unpair; simpl. by rewrite queue_save_state. }
  assert (Hs1 : sessions (unpair uid io1 st).2 =
                match sessions st !! uid with
                | Some p => delete p (delete uid (sessions st))
                | None => sessions st
                end).
  { unfold unpair; simpl. rewrite sessions_save_state; simpl.
    destruct (sessions st !! uid) as [o|] eqn:Ho; [|by rewrite delete_id].
    destruct (Hpartner o eq_refl) as [Ho0 _].
    unfold Py.truthy_int. by destruct (Z.eqb_spec o 0). }
  destruct (unpair uid io1 st) as [r st1]; simpl in *.
  set (st2 := if decide (uid ∈ queue st1) then _ else st1).
  assert (Hq2 : queue st2 = remove_first uid (queue st)).
  { subst st2. case_decide.
    - rewrite queue_save_state; simpl. by rewrite Hq1.
    - rewrite remove_first_absent; congruence. }
  assert (Hs2 : sessions st2 = sessions st1).
  { subst st2. case_decide; [by rewrite sessions_save_state | done]. }
  clearbody st2. rewrite Hq2, Hs2, Hs1. repeat split; try done.
  - destruct (sessions st !! uid) as [o|] eqn:Ho; [|done].
    rewrite !lookup_delete. repeat case_decide; done.
  - by apply remove_first_gone.
  - rewrite H. rewrite !lookup_delete. repeat case_decide; done.
  - intros Hin. apply remove_first_subset in Hin.
    by apply (Hpartner p H).
Qed.

(** C1 (the code at the failing input): user 0 waits, user 5 is matched
    with 0, user 5 ends the session.  [unpair] tests the popped partner for
    truth, 0 is false, and the entry of 0 stays: the table maps 0 to 5 while
    5 has no entry. *)
Theorem pairing_inv_broken_by_zero :
  let st := run [RequestPartner 0 WriteOk; RequestPartner 5 WriteOk;
                 EndSession 5 WriteOk WriteOk] (initial NoFile) in
  sessions st !! 0 = Some 5 ∧ sessions st !! 5 = None ∧ ¬ pairing_inv st.
Proof.
  simpl. split; [reflexivity|]. split; [reflexivity|].
  intros (Hsym & _). specialize (Hsym 0 5 eq_refl). discriminate Hsym.
Qed.

(** C3 (the code at the failing input): user 5 is paired with user 0 and
    ends the session.  The former partner 0 is returned, the entry of 5 is
    removed, and the reverse entry of 0 is still in the table. *)
Theorem end_session_keeps_entry_of_zero :
  let st := run [RequestPartner 0 WriteOk; RequestPartner 5 WriteOk]
              (initial NoFile) in
  sessions st !! 5 = Some 0 ∧ sessions st !! 0 = Some 5 ∧
  (end_session 5 WriteOk WriteOk st).1 = Some 0 ∧
  sessions (end_session 5 WriteOk WriteOk st).2 !! 5 = None ∧
  sessions (end_session 5 WriteOk WriteOk st).2 !! 0 = Some 5.
Proof. simpl. repeat split; reflexivity. Qed.

End EndSession.

Section QueueLength.

Import Matchmaker.

(** From the empty state the queue never holds two users: a caller is
    appended only to an empty queue. *)
Lemma step_queue_short c st :
  (length (queue st) ≤ 1)%nat → (length (queue (step c st)) ≤ 1)%nat.
Proof.
  assert (Hrm : ∀ x l, (length (remove_first x l) ≤ length l)%nat).
  { intros x l. induction l as [|y l IH]; simpl; [done|].
    case_decide; simpl; lia. }
  destruct c as [uid io|uid io1 io2]; intros Hlen; unfold step.
  - unfold find_partner.
    destruct (sessions st !! uid); simpl; [done|].
    destruct (if decide (uid ∈ queue st) then _ else _) as [|o q'] eqn:Hq; simpl.
    + by rewrite queue_save_state.
    + rewrite queue_pair. simpl.
      assert (length (o :: q') ≤ length (queue st))%nat as Hle.
      { rewrite <- Hq. case_decide; [apply Hrm | done]. }
      simpl in Hle. lia.
  - rewrite end_session_unfold. unfold unpair. simpl.
    case_decide; rewrite !queue_save_state; simpl; [|done].
    pose proof (Hrm uid (queue st)). lia.
Qed.

(** X2: In every run from the empty state the queue holds at most one user. *)
Lemma run_queue_short cs d : (length (queue (run cs (initial d))) ≤ 1)%nat.
Proof.
  unfold run. generalize (initial d), (Nat.le_0_l 1 : (length (queue (initial d)) ≤ 1)%nat).
  induction cs as [|c cs IH]; simpl; intros st Hlen; [done|].
  by apply IH, step_queue_short.
Qed.

End QueueLength.

(** ** Rate limiter *)

Section RateLimiter.

(** What [rate_limited] computes, with the truth test on the stored
    timestamp spelled out. *)
Lemma rate_limited_unfold now uid st :
  rate_limited now uid st =
  match last_time st !! uid with
  | Some l =>
      if Py.truthy_float l && PrimFloat.ltb (PrimFloat.sub now l) RATE_LIMIT
      then (true, st)
      else (false, set_last_time (<[uid:=now]> (last_time st)) st)
  | None => (false, set_last_time (<[uid:=now]> (last_time st)) st)
  end.
Proof. unfold rate_limited. by destruct (last_time st !! uid). Qed.

(** Throttled exactly when a stored timestamp that is not zero is less
    than the interval away. *)
Lemma rate_limited_true_iff now uid st :
  (rate_limited now uid st).1 = true ↔
  ∃ l, last_time st !! uid = Some l ∧ Py.truthy_float l = true ∧
       PrimFloat.ltb (PrimFloat.sub now l) RATE_LIMIT = true.
Proof.
  rewrite rate_limited_unfold.
  destruct (last_time st !! uid) as [l|]; simpl.
  - destruct (Py.truthy_float l) eqn:Ht; simpl.
    + destruct (PrimFloat.ltb _ _) eqn:Hl; simpl.
      * split; [by exists l | done].
      * split; [done | intros (? & [= <-] & _ & ?); congruence].
    + split; [done | intros (? & [= <-] & ? & _); congruence].
  - split; [done | by intros (? & ? & _)].
Qed.

(** A call that is not throttled stores [now] for the caller; a throttled
    call changes nothing. *)
Lemma rate_limited_state now uid st :
  (rate_limited now uid st).2 =
  if (rate_limited now uid st).1 then st
  else set_last_time (<[uid:=now]> (last_time st)) st.
Proof.
  rewrite rate_limited_unfold.
  destruct (last_time st !! uid) as [l|]; simpl; [|done].
  by destruct (_ && _).
Qed.

(** The ledger is per user: a call for [uid] leaves every other entry. *)
Lemma rate_limited_other now uid st u :
  u ≠ uid → last_time (rate_limited now uid st).2 !! u = last_time st !! u.
Proof.
  intros Hne. rewrite rate_limited_state.
  destruct (rate_limited now uid st).1; simpl; [done|].
  by rewrite lookup_insert_ne.
Qed.

(** The outcome for [u] depends only on [u]'s own entry. *)
Lemma rate_limited_outcome_local now u st st' :
  last_time st !! u = last_time st' !! u →
  (rate_limited now u st).1 = (rate_limited now u st').1.
Proof.
  intros Heq. rewrite !rate_limited_unfold, Heq.
  destruct (last_time st' !! u) as [l|]; simpl; [|done].
  by destruct (_ && _).
Qed.

(** X12: One user's activity never changes another user's outcome. *)
Lemma rate_limited_independent now now' uid u st :
  u ≠ uid →
  (rate_limited now u (rate_limited now' uid st).2).1 = (rate_limited now u st).1.
Proof.
  intros Hne. apply rate_limited_outcome_local.
  by apply rate_limited_other.
Qed.

(** With stored timestamps different from zero the truth test is the
    presence test, and the outcome is the one the specification words. *)
Lemma rate_limited_nonzero now uid st :
  (∀ l, last_time st !! uid = Some l → Py.truthy_float l = true) →
  ((rate_limited now uid st).1 = true ↔
   ∃ l, last_time st !! uid = Some l ∧
        PrimFloat.ltb (PrimFloat.sub now l) RATE_LIMIT = true).
Proof.
  intros Hnz. rewrite rate_limited_true_iff. split.
  - intros (l & Hl & _ & Hlt). by exists l.
  - intros (l & Hl & Hlt). exists l. repeat split; [done | by apply Hnz | done].
Qed.

(** C6 (the code at the failing input): the clock reads 0.0 at the first
    message of user 7 and 0.5 at the second.  The timestamp 0.0 is stored
    and 0.5 - 0.0 is below the interval, yet the second call is not
    throttled, because the stored value is tested for truth. *)
Theorem rate_limited_ignores_zero_timestamp :
  let st := (rate_limited 0 7 (initial NoFile)).2 in
  last_time st !! 7 = Some 0%float ∧
  PrimFloat.ltb (PrimFloat.sub 0.5 0) RATE_LIMIT = true ∧
  (rate_limited 0.5 7 st).1 = false.
Proof. repeat split; vm_compute; reflexivity. Qed.

End RateLimiter.

(** ** Relay dispatcher *)

Section Dispatcher.

Variable ADMIN_IDS : list Z.
Variable net : action → option string.

(** The state a message leaves behind does not depend on the moderation
    group nor on the transport. *)
Lemma handle_all_messages_state G G' A' net' now upd st :
  (handle_all_messages G ADMIN_IDS net now upd st).1 =
  (handle_all_messages G' A' net' now upd st).1.
Proof.
  unfold handle_all_messages.
  destruct (effective_message upd) as [msg|]; [|done].
  destruct (is_slash_text msg); [done|].
  destruct (sessions st !! effective_user upd); [|done].
  destruct (rate_limited now (effective_user upd) st) as [[] st']; [done|].
  destruct (sessions st' !! effective_user upd) as [p|]; [|done].
  by destruct (Py.truthy_int p).
Qed.

(** With no moderation group the mirror does nothing. *)
Lemma mirror_disabled msg : mirror None ADMIN_IDS net msg = [].
Proof. done. Qed.

(** The trace of a message is the mirror's calls followed by the trace of
    the same message handled with mirroring switched off. *)
Lemma handle_all_messages_trace G now upd st msg :
  effective_message upd = Some msg → is_slash_text msg = false →
  (handle_all_messages G ADMIN_IDS net now upd st).2 =
  mirror G ADMIN_IDS net msg ++
  (handle_all_messages None ADMIN_IDS net now upd st).2.
Proof.
  intros Hmsg Hslash. unfold handle_all_messages. rewrite Hmsg, Hslash.
  rewrite mirror_disabled.
  destruct (sessions st !! effective_user upd); [|done].
  destruct (rate_limited now (effective_user upd) st) as [[] st']; [done|].
  destruct (sessions st' !! effective_user upd) as [p|];
    [|by rewrite app_nil_r].
  destruct (Py.truthy_int p); [done | by rewrite app_nil_r].
Qed.

(** C7: a message that is not slash text, carries an attachment and
    arrives while a moderation group is configured (the code's test: an
    identifier that is set and not 0) is forwarded to that group first,
    whatever the sender's pairing, queue and rate-limit state.  The state
    afterwards, ledger included, is the one the same message leaves with
    mirroring switched off: only the rate limiter of the relay step, run
    for a paired sender, can touch it.  The rest of the trace is that of
    the run without mirroring too, whether or not the forward raised; a
    failure is only reported to the administrators. *)
Theorem mirror_independent g now upd st msg :
  effective_message upd = Some msg → is_slash_text msg = false →
  has_attachment msg = true → g ≠ 0 →
  (handle_all_messages (Some g) ADMIN_IDS net now upd st).1 =
    (handle_all_messages None ADMIN_IDS net now upd st).1 ∧
  (handle_all_messages (Some g) ADMIN_IDS net now upd st).1 =
    match sessions st !! effective_user upd with
    | Some _ => (rate_limited now (effective_user upd) st).2
    | None => st
    end ∧
  (handle_all_messages (Some g) ADMIN_IDS net now upd st).2 =
    ForwardMessage g (chat_id msg) (message_id msg) ::
    match net (ForwardMessage g (chat_id msg) (message_id msg)) with
    | None => []
    | Some e => notify_admins ADMIN_IDS ("Group forward failed: " ++ e)
    end ++
    (handle_all_messages None ADMIN_IDS net now upd st).2.
Proof.
  intros Hmsg Hslash Hatt Hg. split; [|split].
  - apply handle_all_messages_state.
  - unfold handle_all_messages. rewrite Hmsg, Hslash.
    destruct (sessions st !! effective_user upd); [|done].
    destruct (rate_limited now (effective_user upd) st) as [[] st']; [done|].
    simpl. destruct (sessions st' !! effective_user upd) as [p|]; [|done].
    by destruct (Py.truthy_int p).
  - rewrite (handle_all_messages_trace (Some g) now upd st msg) by done.
    unfold mirror. rewrite Hatt.
    unfold Py.truthy_int. destruct (Z.eqb_spec g 0) as [|_]; [done|]. simpl.
    by destruct (net _).
Qed.

(** C9: a sender without a partner whose message is not slash text gets
    the connect prompt, nothing is copied to anyone, and the state (queue,
    pairing table, ledger, snapshot) is exactly as before. *)
Theorem unpaired_message_frame G now upd st msg :
  effective_message upd = Some msg → is_slash_text msg = false →
  sessions st !! effective_user upd = None →
  (handle_all_messages G ADMIN_IDS net now upd st).1 = st ∧
  SendMessage (effective_user upd) NOT_CONNECTED_TEXT
    ∈ (handle_all_messages G ADMIN_IDS net now upd st).2 ∧
  (∀ c f m, CopyMessage c f m
            ∉ (handle_all_messages G ADMIN_IDS net now upd st).2).
Proof.
  intros Hmsg Hslash Hs. unfold handle_all_messages.
  rewrite Hmsg, Hslash, Hs. simpl. split; [done|]. split.
  - apply elem_of_app. right. unfold send_with_menu.
    destruct (net _); by left.
  - intros c f m [Hin|Hin]%elem_of_app.
    + unfold mirror in Hin. destruct G as [g|]; [|by inversion Hin].
      destruct (_ && _); [|by inversion Hin].
      destruct (net _).
      * apply elem_of_cons in Hin as [?|Hin]; [done|].
        unfold notify_admins in Hin.
        apply list_elem_of_fmap in Hin as (? & ? & _). done.
      * apply list_elem_of_singleton in Hin. done.
    + unfold send_with_menu, send_menu in Hin.
      destruct (net _);
        repeat (apply elem_of_cons in Hin as [?|Hin]; [done|]);
        by inversion Hin.
Qed.

(** C10: a message whose text begins with "/" is dropped at once: no call
    of the transport is attempted and the state is unchanged. *)
Theorem slash_text_ignored G now upd st msg rest :
  effective_message upd = Some msg → text msg = Some (String "/" rest) →
  handle_all_messages G ADMIN_IDS net now upd st = (st, []).
Proof.
  intros Hmsg Htext. unfold handle_all_messages, is_slash_text.
  by rewrite Hmsg, Htext.
Qed.

(** The state change of [cmd_anon_stop] is that of [end_session]. *)
Lemma cmd_anon_stop_state io1 io2 upd st :
  (cmd_anon_stop net io1 io2 upd st).1 =
  (Matchmaker.end_session (effective_user upd) io1 io2 st).2.
Proof.
  unfold cmd_anon_stop, Matchmaker.end_session.
  by destruct (Matchmaker.unpair (effective_user upd) io1 st).
Qed.

End Dispatcher.

(** ** Python conversions: [int(str(n)) = n] *)

Section IntStr.

Lemma rstrip_no_space s : no_space s → Py.rstrip s = s.
Proof.
  induction s as [|c s IH]; simpl; [done|]. intros [Hc Hs].
  rewrite IH by done. rewrite Hc. by destruct s.
Qed.

Lemma lstrip_no_space s : no_space s → Py.lstrip s = s.
Proof. destruct s as [|c s]; simpl; [done|]. by intros [-> _]. Qed.

Lemma strip_no_space s : no_space s → Py.strip s = s.
Proof.
  intros Hs. unfold Py.strip. rewrite lstrip_no_space by done.
  by apply rstrip_no_space.
Qed.

Lemma no_space_digits d : no_space (NilEmpty.string_of_uint d).
Proof. induction d; simpl; auto. Qed.

Lemma scan_digits_after d :
  Py.scan_digits true (NilEmpty.string_of_uint d) = Some d.
Proof. induction d; simpl; [done | by rewrite IHd ..]. Qed.

Lemma scan_digits_first d :
  d ≠ Nil → Py.scan_digits false (NilEmpty.string_of_uint d) = Some d.
Proof. destruct d; simpl; [done | by rewrite scan_digits_after ..]. Qed.

Lemma is_int_space_is_space c :
  Py.is_int_space c = true → Py.is_space c = true.
Proof. destruct c as [[] [] [] [] [] [] [] []]; vm_compute; auto. Qed.

Lemma not_space_not_int_space c :
  Py.is_space c = false → Py.is_int_space c = false.
Proof.
  intros Hc. destruct (Py.is_int_space c) eqn:Hi; [|done].
  apply is_int_space_is_space in Hi. congruence.
Qed.

Lemma int_rstrip_no_space s : no_space s → Py.int_rstrip s = s.
Proof.
  induction s as [|c s IH]; simpl; [done|]. intros [Hc Hs].
  rewrite IH by done. rewrite (not_space_not_int_space c Hc). by destruct s.
Qed.

Lemma int_lstrip_no_space s : no_space s → Py.int_lstrip s = s.
Proof.
  destruct s as [|c s]; simpl; [done|]. intros [Hc _].
  by rewrite (not_space_not_int_space c Hc).
Qed.

Lemma int_strip_no_space s : no_space s → Py.int_strip s = s.
Proof.
  intros Hs. unfold Py.int_strip. rewrite int_lstrip_no_space by done.
  by apply int_rstrip_no_space.
Qed.

Lemma is_ascii_digits d : Py.is_ascii (NilEmpty.string_of_uint d) = true.
Proof. induction d; simpl; auto. Qed.

Lemma ascii_int_digits d :
  d ≠ Nil → Py.ascii_int (NilEmpty.string_of_uint d) = inr (Z.of_uint d).
Proof.
  intros Hd. unfold Py.ascii_int.
  rewrite int_strip_no_space by apply no_space_digits.
  pose proof (scan_digits_first d Hd) as Hscan.
  destruct d; simpl in *; [done | by rewrite Hscan ..].
Qed.

Lemma ascii_int_minus_digits d :
  d ≠ Nil →
  Py.ascii_int (String "-" (NilEmpty.string_of_uint d)) = inr (- Z.of_uint d).
Proof.
  intros Hd. unfold Py.ascii_int.
  rewrite int_strip_no_space by (split; [done | apply no_space_digits]).
  by rewrite scan_digits_first.
Qed.

Lemma string_of_uint_nonnil d :
  d ≠ Nil → NilZero.string_of_uint d = NilEmpty.string_of_uint d.
Proof. by destruct d. Qed.

(** The decimal form of an integer is ASCII text. *)
Lemma is_ascii_str z : Py.is_ascii (Py.str z) = true.
Proof.
  unfold Py.str. destruct z as [|p|p]; [done| |].
  - pose proof (DecimalPos.Unsigned.to_uint_nonnil p) as Hp.
    change (Py.is_ascii (NilZero.string_of_uint (Pos.to_uint p)) = true).
    rewrite string_of_uint_nonnil by done. apply is_ascii_digits.
  - pose proof (DecimalPos.Unsigned.to_uint_nonnil p) as Hp.
    change (Py.is_ascii (String "-" (NilZero.string_of_uint (Pos.to_uint p)))
            = true).
    rewrite string_of_uint_nonnil by done. simpl. apply is_ascii_digits.
Qed.

Lemma ascii_int_str z : Py.ascii_int (Py.str z) = inr z.
Proof.
  unfold Py.str. rewrite <- (DecimalZ.of_to z) at 2.
  destruct z as [|p|p].
  - reflexivity.
  - pose proof (DecimalPos.Unsigned.to_uint_nonnil p) as Hp.
    change (Py.ascii_int (NilZero.string_of_uint (Pos.to_uint p))
            = inr (Z.of_uint (Pos.to_uint p))).
    rewrite string_of_uint_nonnil by done. by apply ascii_int_digits.
  - pose proof (DecimalPos.Unsigned.to_uint_nonnil p) as Hp.
    change (Py.ascii_int (String "-" (NilZero.string_of_uint (Pos.to_uint p)))
            = inr (- Z.of_uint (Pos.to_uint p))).
    rewrite string_of_uint_nonnil by done. by apply ascii_int_minus_digits.
Qed.

(** Reading back the decimal form of an integer gives the integer. *)
Lemma int_of_str_str unicode_int z :
  Py.int_of_str unicode_int (Py.str z) = inr z.
Proof. unfold Py.int_of_str. rewrite is_ascii_str. apply ascii_int_str. Qed.

Lemma str_inj z1 z2 : Py.str z1 = Py.str z2 → z1 = z2.
Proof.
  intros Heq. pose proof (ascii_int_str z1) as H1.
  rewrite Heq, ascii_int_str in H1. congruence.
Qed.

End IntStr.

(** ** State store: saving and loading *)

Section Store.

Variable unicode_int : string → Py.exn + Z.

Lemma dict_set_fresh key v d :
  key ∉ d.*1 → Py.dict_set key v d = d ++ [(key, v)].
Proof.
  induction d as [|[k w] d IH]; simpl; [done|]. intros Hk.
  apply not_elem_of_cons in Hk as [Hne Hk].
  destruct (String.eqb_spec k key) as [->|_]; [done|].
  by rewrite IH.
Qed.

Lemma dict_of_members_from d l :
  NoDup (d.*1 ++ l.*1) →
  foldl (fun d kv => Py.dict_set kv.1 kv.2 d) d l = d ++ l.
Proof.
  revert d. induction l as [|[k v] l IH]; intros d Hnd; simpl.
  - by rewrite app_nil_r.
  - apply NoDup_app in Hnd as (Hd & Hdl & Hl).
    apply NoDup_cons in Hl as [Hk Hl].
    rewrite dict_set_fresh.
    + rewrite IH; [by rewrite <- app_assoc|].
      rewrite fmap_app. simpl. rewrite <- app_assoc. simpl.
      apply NoDup_app. split; [done|]. split; [|by constructor].
      intros x Hx. by apply Hdl.
    + intros Hin. apply (Hdl k Hin). by left.
Qed.

(** A member list without repeated keys is its own dictionary. *)
Lemma dict_of_members_NoDup l : NoDup l.*1 → Py.dict_of_members l = l.
Proof. intros Hl. unfold Py.dict_of_members. by rewrite dict_of_members_from. Qed.

Lemma dump_sessions_keys m : NoDup (dump_sessions m).*1.
Proof.
  unfold dump_sessions. rewrite <- list_fmap_compose.
  change (NoDup ((Py.str ∘ fst) <$> map_to_list m)).
  rewrite list_fmap_compose.
  apply NoDup_fmap_2; [intros ??; apply str_inj|].
  apply NoDup_fst_map_to_list.
Qed.

Lemma convert_sessions_snoc its kv :
  convert_sessions unicode_int (its ++ [kv]) =
  (let! m := convert_sessions unicode_int its in
   let! k := Py.int_of_str unicode_int kv.1 in
   let! v := Py.int unicode_int kv.2 in
   inr (<[k:=v]> m)).
Proof. unfold convert_sessions. by rewrite foldl_snoc. Qed.

Lemma convert_dumped l :
  convert_sessions unicode_int ((fun kv : Z * Z => (Py.str kv.1, Py.JInt kv.2)) <$> l)
  = inr (list_to_map (reverse l)).
Proof.
  induction l as [|[k v] l IH] using rev_ind; [done|].
  rewrite fmap_app. simpl. rewrite convert_sessions_snoc, IH. simpl.
  rewrite int_of_str_str. simpl. by rewrite reverse_snoc.
Qed.

Lemma convert_dump_sessions m : convert_sessions unicode_int (dump_sessions m) = inr m.
Proof.
  unfold dump_sessions. rewrite convert_dumped. f_equal.
  symmetry. apply list_to_map_flip. by rewrite reverse_Permutation.
Qed.

Lemma or_else_ints q :
  Py.or_else (Py.JArr (Py.JInt <$> q)) (Py.JArr []) = Py.JArr (Py.JInt <$> q).
Proof. by destruct q. Qed.

Lemma or_else_members l : Py.or_else (Py.JObj l) (Py.JObj []) = Py.JObj l.
Proof. by destruct l. Qed.

Lemma load_body_dump q m :
  load_body unicode_int (Document (dump_state q m))
  = inr (Some (mkGlobals (Py.JArr (Py.JInt <$> q)) m)).
Proof.
  unfold load_body, dump_state. simpl.
  rewrite or_else_ints, or_else_members. simpl.
  rewrite dict_of_members_NoDup by apply dump_sessions_keys.
  by rewrite convert_dump_sessions.
Qed.

Lemma queue_ints_ints q : queue_ints (Py.JArr (Py.JInt <$> q)) = Some q.
Proof.
  unfold queue_ints. apply mapM_Some. rewrite Forall2_fmap_l.
  by apply Forall_Forall2_diag, Forall_true.
Qed.

(** C4: whatever the queue and the pairing table hold, a snapshot that
    was written is read back to exactly those two values, in a process that
    starts from any globals: the queue as the same list of integers, the
    table as the same map. *)
Theorem save_load_roundtrip st g :
  load_state unicode_int (disk (save_state WriteOk st)) g = globals_of st ∧
  queue_ints (g_queue (load_state unicode_int (disk (save_state WriteOk st)) g))
    = Some (queue st) ∧
  g_sessions (load_state unicode_int (disk (save_state WriteOk st)) g) = sessions st.
Proof.
  assert (Hload : load_state unicode_int (disk (save_state WriteOk st)) g
                  = globals_of st).
  { unfold load_state.
    change (disk (save_state WriteOk st))
      with (Document (dump_state (queue st) (sessions st))).
    by rewrite load_body_dump. }
  rewrite Hload. repeat split. apply queue_ints_ints.
Qed.

End Store.

Section LoadState.

Variable unicode_int : string → Py.exn + Z.








End LoadState.

Section LoadStateInstances.



(** Values that are false are taken for missing ones, and the key of a
    pairing-table item goes through [int], which skips blanks but not the
    separator 28. *)
Example load_state_examples :
  load_state (fun _ => inl Py.ValueError)
    (Document (Py.JObj [("queue"%string, Py.JInt 0);
                        ("sessions"%string,
                         Py.JObj [("1"%string, Py.JInt 2);
                                  (" 2 "%string, Py.JInt 1)])]))
    empty_globals
  = mkGlobals (Py.JArr []) {[1 := 2; 2 := 1]} ∧
  load_state (fun _ => inl Py.ValueError)
    (Document (Py.JObj [("queue"%string, Py.JArr [Py.JInt 7]);
                        ("sessions"%string, Py.JArr [])]))
    empty_globals
  = mkGlobals (Py.JArr [Py.JInt 7]) ∅ ∧
  load_state (fun _ => inl Py.ValueError)
    (Document (Py.JObj [("queue"%string, Py.JArr [Py.JInt 7]);
                        ("sessions"%string, Py.JArr [Py.JInt 1])]))
    empty_globals
  = empty_globals ∧
  load_state (fun _ => inl Py.ValueError)
    (Document (Py.JObj [("queue"%string, Py.JBool true)]))
    empty_globals
  = empty_globals ∧
  load_state (fun _ => inl Py.ValueError)
    (Document (Py.JObj [("queue"%string, Py.JArr [Py.JInt 7]);
                        ("sessions"%string,
                         Py.JObj [(String (ascii_of_nat 28) "5", Py.JInt 2)])]))
    empty_globals
  = empty_globals.
Proof. vm_compute. repeat split; reflexivity. Qed.

End LoadStateInstances.

(** ** Instances *)

Section Instances.

Import Matchmaker.

(** The scenario of the specification: 1 waits, 2 is matched with 1, 1
    leaves and is told 2, 2 asks again and waits. *)
Example scenario_two_users :
  let s1 := (find_partner 1 WriteOk (initial NoFile)) in
  let s2 := (find_partner 2 WriteOk s1.2) in
  let s3 := (end_session 1 WriteOk WriteOk s2.2) in
  let s4 := (find_partner 2 WriteOk s3.2) in
  s1.1 = None ∧ queue s1.2 = [1] ∧
  s2.1 = Some 1 ∧ queue s2.2 = [] ∧ sessions s2.2 = {[1 := 2; 2 := 1]} ∧
  s3.1 = Some 2 ∧ queue s3.2 = [] ∧ sessions s3.2 = ∅ ∧
  s4.1 = None ∧ queue s4.2 = [2].
Proof. vm_compute. repeat split; reflexivity. Qed.

(** A snapshot written by a reachable state holds the keys as strings. *)
Example dump_state_example :
  dump_state [3] {[1 := 2]} =
  Py.JObj [("queue"%string, Py.JArr [Py.JInt 3]);
           ("sessions"%string, Py.JObj [("1"%string, Py.JInt 2)])].
Proof. vm_compute. reflexivity. Qed.

(** [int] on strings and floats as Python has it: blanks around are
    skipped, the separator 28 is not; text outside ASCII is left to the
    parameter. *)
Example int_examples :
  let int_of_str := Py.int_of_str (fun _ => inr 3) in
  let int := Py.int (fun _ => inr 3) in
  int_of_str " -1_000 " = inr (-1000) ∧
  int_of_str "+007" = inr 7 ∧
  int_of_str "1__0" = inl Py.ValueError ∧
  int_of_str "- 1" = inl Py.ValueError ∧
  int_of_str "" = inl Py.ValueError ∧
  int_of_str (String (ascii_of_nat 9) "5") = inr 5 ∧
  int_of_str (String (ascii_of_nat 28) "5") = inl Py.ValueError ∧
  Py.strip (String (ascii_of_nat 28) "5") = "5"%string ∧
  int_of_str (String (ascii_of_nat 217) (String (ascii_of_nat 163) "")) = inr 3 ∧
  int (Py.JFloat 2.75) = inr 2 ∧
  int (Py.JFloat (-2.75)) = inr (-2) ∧
  int (Py.JFloat infinity) = inl Py.OverflowError ∧
  int Py.JNull = inl Py.TypeError.
Proof. vm_compute. repeat split; reflexivity. Qed.

Lemma mirror_independent_witness :
  let msg := mkMessage None 5 41 true false false false false false false false in
  let upd := mkUpdate (Some msg) 5 in
  let st := mkState [] {[5 := 6; 6 := 5]} ∅ NoFile in
  let net := fun _ : action => Some "timeout"%string in
  (handle_all_messages (Some (-100)) [9] net 0.5 upd st).1 =
    (handle_all_messages None [9] net 0.5 upd st).1 ∧
  (handle_all_messages (Some (-100)) [9] net 0.5 upd st).1 =
    match sessions st !! effective_user upd with
    | Some _ => (rate_limited 0.5 (effective_user upd) st).2
    | None => st
    end ∧
  (handle_all_messages (Some (-100)) [9] net 0.5 upd st).2 =
    ForwardMessage (-100) 5 41 ::
    match net (ForwardMessage (-100) 5 41) with
    | None => []
    | Some e => notify_admins [9] ("Group forward failed: " ++ e)
    end ++
    (handle_all_messages None [9] net 0.5 upd st).2.
Proof.
  exact (mirror_independent [9] (fun _ => Some "timeout"%string) (-100) 0.5
           (mkUpdate (Some (mkMessage None 5 41 true false false false false
                              false false false)) 5)
           (mkState [] {[5 := 6; 6 := 5]} ∅ NoFile)
           (mkMessage None 5 41 true false false false false false false false)
           eq_refl eq_refl eq_refl ltac:(discriminate)).
Defined.

(** The relay is attempted although the forward raised. *)
Example relay_after_failed_mirror :
  (handle_all_messages (Some (-100)) [9] (fun _ => Some "timeout"%string) 0.5
     (mkUpdate (Some (mkMessage None 5 41 true false false false false
                        false false false)) 5)
     (mkState [] {[5 := 6; 6 := 5]} ∅ NoFile)).2
  = [ForwardMessage (-100) 5 41;
     SendMessage 9 "[ADMIN] Group forward failed: timeout";
     CopyMessage 6 5 41;
     SendMessage 9 "[ADMIN] Relay failed: timeout"].
Proof. vm_compute. reflexivity. Qed.

Lemma unpaired_message_frame_witness :
  let msg := mkMessage (Some "hello"%string) 9 1 false false false false false
               false false false in
  let upd := mkUpdate (Some msg) 9 in
  let st := mkState [4] {[5 := 6; 6 := 5]} ∅ NoFile in
  let net := fun _ : action => @None string in
  (handle_all_messages None [] net 0.5 upd st).1 = st ∧
  SendMessage 9 NOT_CONNECTED_TEXT ∈ (handle_all_messages None [] net 0.5 upd st).2 ∧
  (∀ c f m, CopyMessage c f m ∉ (handle_all_messages None [] net 0.5 upd st).2).
Proof.
  exact (unpaired_message_frame [] (fun _ => None) None 0.5
           (mkUpdate (Some (mkMessage (Some "hello"%string) 9 1 false false
                              false false false false false false)) 9)
           (mkState [4] {[5 := 6; 6 := 5]} ∅ NoFile)
           (mkMessage (Some "hello"%string) 9 1 false false false false false
              false false false)
           eq_refl eq_refl eq_refl).
Defined.

Lemma slash_text_ignored_witness :
  let msg := mkMessage (Some "/ hi"%string) 5 1 true false false false false
               false false false in
  let upd := mkUpdate (Some msg) 5 in
  let st := mkState [] {[5 := 6; 6 := 5]} ∅ NoFile in
  handle_all_messages (Some (-100)) [9] (fun _ => None) 0.5 upd st = (st, []).
Proof.
  exact (slash_text_ignored [9] (fun _ => None) (Some (-100)) 0.5
           (mkUpdate (Some (mkMessage (Some "/ hi"%string) 5 1 true false
                              false false false false false false)) 5)
           (mkState [] {[5 := 6; 6 := 5]} ∅ NoFile)
           (mkMessage (Some "/ hi"%string) 5 1 true false false false false
              false false false)
           " hi"%string eq_refl eq_refl).
Defined.

End Instances.

(** ** Further properties of the matchmaker *)

Section MatchmakerMore.

Import Matchmaker.

Lemma end_session_queue uid io1 io2 st :
  queue (end_session uid io1 io2 st).2 = remove_first uid (queue st).
Proof.
  rewrite end_session_unfold. unfold unpair. simpl.
  rewrite !queue_save_state. simpl.
  case_decide; rewrite queue_save_state; simpl; [done|].
  by rewrite remove_first_absent.
Qed.

Lemma end_session_sessions uid io1 io2 st :
  sessions (end_session uid io1 io2 st).2 = sessions (unpair uid io1 st).2.
Proof.
  rewrite end_session_unfold. simpl.
  case_decide; [by rewrite sessions_save_state | done].
Qed.

Lemma unpair_sessions_uid uid io st : sessions (unpair uid io st).2 !! uid = None.
Proof.
  unfold unpair. simpl. rewrite sessions_save_state. simpl.
  destruct (sessions st !! uid) as [o|]; [destruct (Py.truthy_int o)|];
    rewrite ?lookup_delete; repeat case_decide; done.
Qed.

(** X1: Any sequence of calls by users other than 0, from any state that
    satisfies the invariants and holds no 0, keeps the pairing table
    symmetric and irreflexive, the queue disjoint from the table and the
    queue free of duplicates. *)
Theorem run_keeps_invariants cs st :
  Forall (fun c => caller c ≠ 0) cs → well_formed st →
  pairing_inv (run cs st) ∧ NoDup (queue (run cs st)).
Proof.
  intros Hcs Hwf.
  destruct (run_well_formed cs st Hcs Hwf) as (Hinv & Hnd & _). done.
Qed.

(** X4: Ending a session twice: the second call returns no partner and leaves
    queue and pairing table as the first call left them. *)
Theorem end_session_twice uid io1 io2 io3 io4 st :
  NoDup (queue st) →
  (end_session uid io3 io4 (end_session uid io1 io2 st).2).1 = None ∧
  queue (end_session uid io3 io4 (end_session uid io1 io2 st).2).2
    = queue (end_session uid io1 io2 st).2 ∧
  sessions (end_session uid io3 io4 (end_session uid io1 io2 st).2).2
    = sessions (end_session uid io1 io2 st).2.
Proof.
  intros Hnd.
  assert (Hs : sessions (end_session uid io1 io2 st).2 !! uid = None).
  { rewrite end_session_sessions. apply unpair_sessions_uid. }
  assert (Hq : uid ∉ queue (end_session uid io1 io2 st).2).
  { rewrite end_session_queue. by apply remove_first_gone. }
  set (s1 := (end_session uid io1 io2 st).2) in *. clearbody s1.
  split; [|split].
  - rewrite end_session_unfold. simpl. done.
  - rewrite end_session_queue. by apply remove_first_absent.
  - rewrite end_session_sessions. unfold unpair. simpl.
    rewrite sessions_save_state. simpl. rewrite Hs. by apply delete_id.
Qed.

(** X5: Cancelling a search: a newcomer who finds the queue empty is enqueued,
    and ending the session right away gives back the queue and the pairing
    table of before. *)
Theorem enqueue_then_cancel uid io io1 io2 st :
  newcomer uid st → queue st = [] →
  (find_partner uid io st).1 = None ∧
  queue (find_partner uid io st).2 = [uid] ∧
  (end_session uid io1 io2 (find_partner uid io st).2).1 = None ∧
  queue (end_session uid io1 io2 (find_partner uid io st).2).2 = [] ∧
  sessions (end_session uid io1 io2 (find_partner uid io st).2).2 = sessions st.
Proof.
  intros [Hs Hq] Hempty.
  assert (Hfp : find_partner uid io st
                = (None, save_state io (set_queue [uid] st))).
  { unfold find_partner. rewrite Hs, decide_False by done. by rewrite Hempty. }
  rewrite Hfp. cbn [fst snd].
  rewrite end_session_queue, end_session_sessions, end_session_unfold.
  unfold unpair. cbn [fst snd].
  rewrite !sessions_save_state, !queue_save_state. simpl.
  rewrite Hs. rewrite decide_True by done.
  repeat split. by apply delete_id.
Qed.

(** X6: A match that is ended at once: the caller is paired with the head [h]
    of the queue, and when the caller then ends the session both entries
    leave the table, while [h] is not put back into the queue. *)
Theorem match_then_end uid io io1 io2 st h t :
  newcomer uid st → queue st = h :: t → h ≠ 0 → sessions st !! h = None →
  (end_session uid io1 io2 (find_partner uid io st).2).1 = Some h ∧
  sessions (end_session uid io1 io2 (find_partner uid io st).2).2 = sessions st ∧
  queue (end_session uid io1 io2 (find_partner uid io st).2).2 = t.
Proof.
  intros Hnew Hq Hh Hsh. pose proof Hnew as [Hs Hnq].
  rewrite (find_partner_newcomer uid io st h t) by done. cbn [fst snd].
  assert (Hhu : h ≠ uid).
  { intros ->. apply Hnq. rewrite Hq. by left. }
  assert (Hut : uid ∉ t).
  { intros Hin. apply Hnq. rewrite Hq. by right. }
  rewrite end_session_queue, end_session_sessions, end_session_unfold.
  unfold unpair. cbn [fst snd].
  rewrite !sessions_save_state, queue_pair. simpl.
  rewrite !sessions_pair. simpl.
  rewrite lookup_insert_ne, lookup_insert_eq by done.
  assert (Ht : Py.truthy_int h = true).
  { unfold Py.truthy_int. by destruct (Z.eqb_spec h 0). }
  rewrite Ht. split; [done|]. split.
  - apply map_eq. intros k. rewrite !lookup_delete, !lookup_insert.
    repeat case_decide; simplify_eq; done.
  - by apply remove_first_absent.
Qed.

(** X7: What [/status] says after [find_partner]: with a symmetric table, a
    returned partner means caller and partner are both connected, and no
    partner means the caller is waiting. *)
Theorem find_partner_status uid io st :
  symmetric (sessions st) →
  match (find_partner uid io st).1 with
  | Some p =>
      status_of uid (find_partner uid io st).2 = Connected ∧
      status_of p (find_partner uid io st).2 = Connected
  | None => status_of uid (find_partner uid io st).2 = Waiting
  end.
Proof.
  intros Hsym. unfold find_partner, status_of.
  destruct (sessions st !! uid) as [p|] eqn:Hp; simpl.
  - rewrite Hp. by rewrite (Hsym _ _ Hp).
  - destruct (if decide (uid ∈ queue st) then _ else _) as [|o q']; simpl.
    + rewrite sessions_save_state, queue_save_state. simpl. rewrite Hp.
      rewrite decide_True; [done|]. by apply list_elem_of_singleton.
    + rewrite !sessions_pair. simpl.
      rewrite lookup_insert_eq. rewrite lookup_insert.
      case_decide; [done|]. by rewrite lookup_insert_eq.
Qed.

End MatchmakerMore.

(** ** Snapshots after calls, and the remaining commands *)

Section Recovery.

Variable unicode_int : string → Py.exn + Z.

Import Matchmaker.

Lemma recoverable_saved st : recoverable unicode_int (save_state WriteOk st).
Proof.
  unfold recoverable, load_state.
  change (disk (save_state WriteOk st))
    with (Document (dump_state (queue st) (sessions st))).
  by rewrite load_body_dump.
Qed.

Lemma step_recoverable c st :
  writes_ok c → recoverable unicode_int st → recoverable unicode_int (step c st).
Proof.
  destruct c as [uid io|uid io1 io2]; unfold step.
  - intros -> Hrec. unfold find_partner.
    destruct (sessions st !! uid); [done|].
    destruct (if decide (uid ∈ queue st) then _ else _);
      apply recoverable_saved.
  - intros [-> ->] _. rewrite end_session_unfold. cbn [fst snd].
    case_decide; [apply recoverable_saved|].
    unfold unpair. cbn [fst snd]. apply recoverable_saved.
Qed.

(** X8: After any sequence of calls whose snapshot writes succeed, a restart
    restores exactly the current queue and pairing table. *)
Theorem run_recoverable cs st :
  Forall writes_ok cs → recoverable unicode_int st →
  recoverable unicode_int (run cs st).
Proof.
  unfold run. revert st.
  induction cs as [|c cs IH]; simpl; intros st Hcs Hrec; [done|].
  apply Forall_cons in Hcs as [Hc Hcs].
  by apply IH, step_recoverable.
Qed.

Section WithTransport.

Variable ADMIN_IDS : list Z.
Variable net : action → option string.

Lemma cmd_anon_next_state io1 io2 upd st :
  (cmd_anon_next net io1 io2 upd st).1 =
  (find_partner (effective_user upd) io2
     (unpair (effective_user upd) io1 st).2).2.
Proof.
  unfold cmd_anon_next.
  destruct (unpair (effective_user upd) io1 st) as [old st1]. cbn [snd].
  destruct (find_partner (effective_user upd) io2 st1) as [[p|] st2];
    [by destruct (Py.truthy_int p) | done].
Qed.

(** X9: [/anon_next] by a paired user in a well-formed state: the user is
    never handed the partner just left, that partner ends neither paired
    nor waiting, and the state stays well-formed. *)
Theorem cmd_anon_next_leaves_partner io1 io2 upd st p :
  well_formed st → sessions st !! effective_user upd = Some p →
  sessions (cmd_anon_next net io1 io2 upd st).1 !! effective_user upd ≠ Some p ∧
  status_of p (cmd_anon_next net io1 io2 upd st).1 = NotInChat ∧
  well_formed (cmd_anon_next net io1 io2 upd st).1.
Proof.
  intros Hwf Hp. rewrite cmd_anon_next_state.
  set (uid := effective_user upd) in *.
  destruct (well_formed_partner st uid p Hwf Hp) as [Hp0 Hpq].
  pose proof (unpair_well_formed uid io1 st Hwf) as Hwf1.
  pose proof Hwf as ((Hsym & Hirr & Hdis) & Hnd & Hq0 & Hs0).
  assert (Hu0 : uid ≠ 0) by (intros E; rewrite E in Hp; congruence).
  assert (Hpu : p ≠ uid) by (intros ->; by apply (Hirr uid)).
  assert (Hs1 : sessions (unpair uid io1 st).2
                = delete p (delete uid (sessions st))).
  { unfold unpair. cbn [snd]. rewrite sessions_save_state. simpl.
    rewrite Hp. unfold Py.truthy_int. by destruct (Z.eqb_spec p 0). }
  assert (Hq1 : queue (unpair uid io1 st).2 = queue st).
  { unfold unpair. cbn [snd]. by rewrite queue_save_state. }
  split; [|split]; [| |by apply find_partner_well_formed].
  - set (st1 := (unpair uid io1 st).2) in *. clearbody st1.
    unfold find_partner. rewrite Hs1.
    rewrite lookup_delete_ne, lookup_delete_eq by done.
    destruct (if decide (uid ∈ queue st1) then _ else _) as [|o q'] eqn:Hq;
      cbn [snd].
    + rewrite sessions_save_state. simpl. rewrite Hs1.
      rewrite lookup_delete_ne, lookup_delete_eq by done. done.
    + rewrite sessions_pair. simpl.
      rewrite lookup_insert. destruct (decide (o = uid)) as [Ho|Ho].
      * intros [= E]. congruence.
      * rewrite lookup_insert_eq. intros [= ->].
        apply Hpq. rewrite <- Hq1.
        assert (Hin : p ∈ (if decide (uid ∈ queue st1)
                           then remove_first uid (queue st1) else queue st1)).
        { rewrite Hq. by left. }
        revert Hin. case_decide; [apply remove_first_subset | done].
  - set (st1 := (unpair uid io1 st).2) in *. clearbody st1.
    unfold find_partner, status_of. rewrite Hs1.
    rewrite lookup_delete_ne, lookup_delete_eq by done.
    assert (Hsub : ∀ a, a ∈ (if decide (uid ∈ queue st1)
                             then remove_first uid (queue st1) else queue st1)
                        → a ∈ queue st).
    { intros a. rewrite <- Hq1. case_decide; [apply remove_first_subset | done]. }
    destruct (if decide (uid ∈ queue st1) then _ else _) as [|o q'];
      cbn [snd].
    + rewrite sessions_save_state, queue_save_state. simpl. rewrite Hs1.
      rewrite lookup_delete_eq.
      rewrite decide_False; [done|].
      by intros ->%list_elem_of_singleton.
    + rewrite sessions_pair, queue_pair. simpl.
      assert (Hop : o ≠ p).
      { intros ->. apply Hpq, Hsub. by left. }
      rewrite !lookup_insert_ne by done. rewrite Hs1, lookup_delete_eq.
      rewrite decide_False; [done|].
      intros Hin. apply Hpq, Hsub. by right.
Qed.

(** X10: [/anon_start] changes the state as [find_partner] does and writes to
    nobody but the caller and the partner [find_partner] returned. *)
Theorem cmd_anon_start_contacts io upd st :
  (cmd_anon_start net io upd st).1 = (find_partner (effective_user upd) io st).2 ∧
  Forall (fun a =>
            ∃ msg, a = SendMessage (effective_user upd) msg ∨
                   ∃ p, (find_partner (effective_user upd) io st).1 = Some p ∧
                        a = SendMessage p msg)
         (cmd_anon_start net io upd st).2.
Proof.
  unfold cmd_anon_start.
  destruct (find_partner (effective_user upd) io st) as [[p|] st'];
    cbn [fst snd].
  - destruct (Py.truthy_int p); cbn [fst snd]; (split; [done|]).
    + unfold notify_both, send_menu. destruct (net _); simpl;
        repeat constructor; eauto.
    + unfold send_menu. repeat constructor; eauto.
  - split; [done|]. unfold send_menu. repeat constructor; eauto.
Qed.

(** X11: [/clear_state]: for anyone but an administrator nothing changes.  For
    an administrator queue and pairing table are emptied and the ledger is
    kept; when the snapshot could be removed a restart starts empty, and
    when the removal failed a restart brings back what the snapshot held,
    that is, the state that was just cleared. *)
Theorem cmd_clear_state_effect rm upd st :
  if is_admin ADMIN_IDS (effective_user upd) then
    queue (cmd_clear_state ADMIN_IDS net rm upd st).1 = [] ∧
    sessions (cmd_clear_state ADMIN_IDS net rm upd st).1 = ∅ ∧
    last_time (cmd_clear_state ADMIN_IDS net rm upd st).1 = last_time st ∧
    (rm = RemoveOk →
     recoverable unicode_int (cmd_clear_state ADMIN_IDS net rm upd st).1) ∧
    (rm = RemoveFails → recoverable unicode_int st →
     load_state unicode_int
       (disk (cmd_clear_state ADMIN_IDS net rm upd st).1) empty_globals
     = globals_of st)
  else (cmd_clear_state ADMIN_IDS net rm upd st).1 = st.
Proof.
  unfold cmd_clear_state.
  destruct (is_admin ADMIN_IDS (effective_user upd)); cbn [negb fst]; [|done].
  repeat split.
  - intros ->. unfold recoverable. simpl. by destruct (disk st).
  - intros -> Hrec. simpl. unfold recoverable in Hrec.
    by destruct (disk st).
Qed.

End WithTransport.

End Recovery.

(** ** Further properties of the rate limiter and the dispatcher *)

Section RelayMore.

(** X13: A throttled call leaves no trace in the ledger: every later call, of
    any user at any time, answers as if the throttled one had not been
    made.  The interval runs from the last accepted message. *)
Theorem rate_limited_throttled_no_effect now uid st now' u :
  (rate_limited now uid st).1 = true →
  rate_limited now' u (rate_limited now uid st).2 = rate_limited now' u st.
Proof. intros Ht. by rewrite rate_limited_state, Ht. Qed.

Variable GROUP_ID : option Z.
Variable ADMIN_IDS : list Z.
Variable net : action → option string.

(** X14: A message never changes the queue, the pairing table or the snapshot,
    nor the ledger entry of any user but the sender; and the state it
    leaves does not depend on the configuration or on which transport
    calls raise. *)
Theorem handle_all_messages_frame now upd st :
  queue (handle_all_messages GROUP_ID ADMIN_IDS net now upd st).1 = queue st ∧
  sessions (handle_all_messages GROUP_ID ADMIN_IDS net now upd st).1 = sessions st ∧
  disk (handle_all_messages GROUP_ID ADMIN_IDS net now upd st).1 = disk st ∧
  (∀ u, u ≠ effective_user upd →
        last_time (handle_all_messages GROUP_ID ADMIN_IDS net now upd st).1 !! u
        = last_time st !! u) ∧
  (∀ G' A' net',
     (handle_all_messages G' A' net' now upd st).1
     = (handle_all_messages GROUP_ID ADMIN_IDS net now upd st).1).
Proof.
  assert (Hst : (handle_all_messages GROUP_ID ADMIN_IDS net now upd st).1 = st ∨
                (handle_all_messages GROUP_ID ADMIN_IDS net now upd st).1
                = (rate_limited now (effective_user upd) st).2).
  { unfold handle_all_messages.
    destruct (effective_message upd) as [msg|]; [|by left].
    destruct (is_slash_text msg); [by left|].
    destruct (sessions st !! effective_user upd); [|by left].
    destruct (rate_limited now (effective_user upd) st) as [[] st'];
      [by right|].
    cbn [snd]. destruct (sessions st' !! effective_user upd) as [p|];
      [destruct (Py.truthy_int p)|]; by right. }
  repeat split.
  - destruct Hst as [-> | ->]; [done|]. rewrite rate_limited_state.
    by destruct (rate_limited _ _ _).1.
  - destruct Hst as [-> | ->]; [done|]. rewrite rate_limited_state.
    by destruct (rate_limited _ _ _).1.
  - destruct Hst as [-> | ->]; [done|]. rewrite rate_limited_state.
    by destruct (rate_limited _ _ _).1.
  - intros u Hu. destruct Hst as [-> | ->]; [done|].
    by apply rate_limited_other.
  - intros G' A' net'. clear Hst.
    unfold handle_all_messages.
    destruct (effective_message upd) as [msg|]; [|done].
    destruct (is_slash_text msg); [done|].
    destruct (sessions st !! effective_user upd); [|done].
    destruct (rate_limited now (effective_user upd) st) as [[] st']; [done|].
    destruct (sessions st' !! effective_user upd) as [p|]; [|done].
    by destruct (Py.truthy_int p).
Qed.

Lemma sessions_rate_limited now uid st :
  sessions (rate_limited now uid st).2 = sessions st.
Proof. rewrite rate_limited_state. by destruct (rate_limited _ _ _).1. Qed.

(** X15: Who is contacted by a message: a copy goes only to the sender's
    current partner and is the message itself; a forward goes only to the
    configured group and only for a message with an attachment; the typing
    signal goes to the sender; texts go to the sender or to an
    administrator. *)
Theorem handle_all_messages_contacts now upd st :
  Forall (allowed_contact GROUP_ID ADMIN_IDS upd st)
         (handle_all_messages GROUP_ID ADMIN_IDS net now upd st).2.
Proof.
  assert (Hadm : ∀ msg, Forall (allowed_contact GROUP_ID ADMIN_IDS upd st)
                               (notify_admins ADMIN_IDS msg)).
  { intros msg. unfold notify_admins. apply Forall_fmap, Forall_forall.
    intros adm Hin. simpl. by right. }
  unfold handle_all_messages.
  destruct (effective_message upd) as [msg|] eqn:Hmsg; [|constructor].
  destruct (is_slash_text msg); [constructor|].
  assert (Hmirror : Forall (allowed_contact GROUP_ID ADMIN_IDS upd st)
                           (mirror GROUP_ID ADMIN_IDS net msg)).
  { unfold mirror. destruct GROUP_ID as [g|] eqn:HG; [|constructor].
    destruct (Py.truthy_int g); simpl; [|constructor].
    destruct (has_attachment msg) eqn:Hatt; [|constructor].
    assert (Hfwd : allowed_contact (Some g) ADMIN_IDS upd st
                     (ForwardMessage g (chat_id msg) (message_id msg))).
    { simpl. split; [done|]. exists msg. by rewrite Hmsg. }
    assert (Hadm' : ∀ m, Forall (allowed_contact (Some g) ADMIN_IDS upd st)
                                (notify_admins ADMIN_IDS m)).
    { intros m. unfold notify_admins. apply Forall_fmap, Forall_forall.
      intros adm Hin. simpl. by right. }
    destruct (net _); constructor; auto. }
  destruct (sessions st !! effective_user upd) as [p0|] eqn:Hs.
  - pose proof (sessions_rate_limited now (effective_user upd) st) as Hsame.
    destruct (rate_limited now (effective_user upd) st) as [[] st'];
      cbn [snd] in *.
    + apply Forall_app. split; [done|]. by repeat constructor.
    + rewrite Hsame, Hs. destruct (Py.truthy_int p0); [|done].
      apply Forall_app. split; [done|]. unfold relay.
      assert (Hcopy : allowed_contact GROUP_ID ADMIN_IDS upd st
                        (CopyMessage p0 (chat_id msg) (message_id msg))).
      { simpl. split; [done|]. exists msg. by rewrite Hmsg. }
      destruct (net _); constructor; auto.
  - apply Forall_app. split; [done|]. unfold send_with_menu, send_menu.
    destruct (net _); repeat constructor; by left.
Qed.

(** X16: A paired sender who is throttled: nothing is copied to anyone and the
    state, ledger included, is as before. *)
Theorem throttled_message_dropped now upd st msg :
  effective_message upd = Some msg → is_slash_text msg = false →
  is_Some (sessions st !! effective_user upd) →
  (rate_limited now (effective_user upd) st).1 = true →
  (handle_all_messages GROUP_ID ADMIN_IDS net now upd st).1 = st ∧
  Forall (fun a => is_copy a = false)
         (handle_all_messages GROUP_ID ADMIN_IDS net now upd st).2.
Proof.
  intros Hmsg Hslash [p Hp] Hthr.
  pose proof (rate_limited_state now (effective_user upd) st) as Hst.
  unfold handle_all_messages. rewrite Hmsg, Hslash, Hp.
  destruct (rate_limited now (effective_user upd) st) as [b st'].
  cbn [fst snd] in *. subst b st'. split; [done|].
  apply Forall_app. split; [|by repeat constructor].
  unfold mirror. destruct GROUP_ID as [g|]; [|constructor].
  destruct (_ && _); [|constructor].
  destruct (net _); constructor; try done.
  unfold notify_admins. by apply Forall_fmap, Forall_true.
Qed.

(** X17: A paired sender who is not throttled: the message is copied to the
    partner (when the partner is not 0) and the sender's ledger entry
    becomes the time of the message. *)
Theorem accepted_message_relayed now upd st msg p :
  effective_message upd = Some msg → is_slash_text msg = false →
  sessions st !! effective_user upd = Some p → p ≠ 0 →
  (rate_limited now (effective_user upd) st).1 = false →
  CopyMessage p (chat_id msg) (message_id msg)
    ∈ (handle_all_messages GROUP_ID ADMIN_IDS net now upd st).2 ∧
  last_time (handle_all_messages GROUP_ID ADMIN_IDS net now upd st).1
    !! effective_user upd = Some now.
Proof.
  intros Hmsg Hslash Hp Hp0 Hthr.
  pose proof (rate_limited_state now (effective_user upd) st) as Hst.
  unfold handle_all_messages. rewrite Hmsg, Hslash, Hp.
  destruct (rate_limited now (effective_user upd) st) as [b st'].
  cbn [fst snd] in *. subst b st'. simpl. rewrite Hp.
  assert (Ht : Py.truthy_int p = true).
  { unfold Py.truthy_int. by destruct (Z.eqb_spec p 0). }
  rewrite Ht. cbn [fst snd]. split.
  - apply elem_of_app. right. unfold relay. destruct (net _); by left.
  - simpl. by rewrite lookup_insert_eq.
Qed.

End RelayMore.

(** ** Configuration parsing *)

Section ConfigParsing.

Variable unicode_int : string → Py.exn + Z.

Local Open Scope string_scope.

Lemma split_comma_nonempty s : split_comma s ≠ [].
Proof.
  destruct s as [|c s]; simpl; [done|].
  destruct (Ascii.eqb c ","); [done|]. by destruct (split_comma s).
Qed.

Lemma split_comma_app s1 s2 :
  split_comma (s1 ++ String "," s2) = (split_comma s1 ++ split_comma s2)%list.
Proof.
  induction s1 as [|c s1 IH]; simpl; [done|].
  destruct (Ascii.eqb c ","); [by rewrite IH|].
  rewrite IH. pose proof (split_comma_nonempty s1).
  by destruct (split_comma s1).
Qed.

Lemma split_comma_no_comma s : no_comma s → split_comma s = [s].
Proof.
  induction s as [|c s IH]; simpl; [done|]. intros [-> Hs]. by rewrite IH.
Qed.

Lemma parse_parts_app l1 l2 :
  parse_parts unicode_int (l1 ++ l2)
  = (parse_parts unicode_int l1 ++ parse_parts unicode_int l2)%list.
Proof.
  induction l1 as [|p l1 IH]; simpl; [done|].
  destruct (Py.int_of_str unicode_int p); [done|]. by rewrite IH.
Qed.

(** The emptiness test at the head of [_parse_admins] changes nothing. *)
Lemma _parse_admins_unfold e :
  _parse_admins unicode_int (Some e) =
  parse_parts unicode_int (List.filter (fun p => negb (String.eqb p ""))
                           (Py.strip <$> split_comma e)).
Proof. by destruct e. Qed.

(** X18: The entries of [ADMIN_IDS] are read one by one: the identifiers of
    two lists joined by a comma are those of the first followed by those of
    the second, whatever the two hold. *)
Theorem _parse_admins_comma s1 s2 :
  _parse_admins unicode_int (Some (s1 ++ String "," s2)) =
  (_parse_admins unicode_int (Some s1) ++ _parse_admins unicode_int (Some s2))%list.
Proof.
  rewrite !_parse_admins_unfold, split_comma_app, fmap_app.
  by rewrite List.filter_app, parse_parts_app.
Qed.

Lemma no_comma_digits d : no_comma (NilEmpty.string_of_uint d).
Proof. induction d; simpl; auto. Qed.

Lemma str_shape z : no_space (Py.str z) ∧ no_comma (Py.str z) ∧ Py.str z ≠ "".
Proof.
  unfold Py.str. destruct z as [|p|p].
  - by repeat split.
  - pose proof (DecimalPos.Unsigned.to_uint_nonnil p) as Hp.
    change (NilZero.string_of_int (Z.to_int (Z.pos p)))
      with (NilZero.string_of_uint (Pos.to_uint p)).
    rewrite string_of_uint_nonnil by done.
    split; [apply no_space_digits|]. split; [apply no_comma_digits|].
    by destruct (Pos.to_uint p).
  - pose proof (DecimalPos.Unsigned.to_uint_nonnil p) as Hp.
    change (NilZero.string_of_int (Z.to_int (Z.neg p)))
      with (String "-" (NilZero.string_of_uint (Pos.to_uint p))).
    rewrite string_of_uint_nonnil by done.
    split; [split; [done | apply no_space_digits]|].
    split; [split; [done | apply no_comma_digits] | done].
Qed.

Lemma _parse_admins_one z : _parse_admins unicode_int (Some (Py.str z)) = [z].
Proof.
  destruct (str_shape z) as (Hsp & Hco & Hne).
  rewrite _parse_admins_unfold, split_comma_no_comma by done. simpl.
  rewrite strip_no_space by done.
  destruct (String.eqb_spec (Py.str z) ""); [done|]. simpl.
  by rewrite int_of_str_str.
Qed.

(** X19: A comma-separated list of decimal identifiers is read back as the
    list, in order and with repetitions. *)
Theorem _parse_admins_join ids : _parse_admins unicode_int (Some (join_ids ids)) = ids.
Proof.
  induction ids as [|z ids IH]; [done|].
  destruct ids as [|z' ids]; [apply _parse_admins_one|].
  change (join_ids (z :: z' :: ids))
    with (Py.str z ++ String "," (join_ids (z' :: ids))).
  by rewrite _parse_admins_comma, _parse_admins_one, IH.
Qed.

Lemma lstrip_all_space pre s :
  all_space pre → Py.lstrip (pre ++ s) = Py.lstrip s.
Proof.
  induction pre as [|c pre IH]; simpl; [done|]. intros [-> Hpre]. by apply IH.
Qed.

Lemma rstrip_all_space post : all_space post → Py.rstrip post = "".
Proof.
  induction post as [|c post IH]; simpl; [done|]. intros [-> Hpost].
  by rewrite IH.
Qed.

Lemma rstrip_app_all_space s post :
  all_space post → Py.rstrip (s ++ post) = Py.rstrip s.
Proof.
  intros Hpost. induction s as [|c s IH]; simpl.
  - by apply rstrip_all_space.
  - by rewrite IH.
Qed.

Lemma lstrip_only_space post : all_space post → Py.lstrip post = "".
Proof.
  induction post as [|c post IH]; simpl; [done|]. intros [-> Hpost]. by apply IH.
Qed.

(** [strip] removes a padding of white space around text that has none. *)
Lemma strip_padded pre s post :
  all_space pre → all_space post → no_space s →
  Py.strip (pre ++ s ++ post) = s.
Proof.
  intros Hpre Hpost Hs. unfold Py.strip.
  rewrite lstrip_all_space by done.
  destruct s as [|c s].
  - change ("" ++ post) with post. by rewrite lstrip_only_space.
  - destruct Hs as [Hc Hs].
    change (String c s ++ post) with (String c (s ++ post)).
    cbn [Py.lstrip]. rewrite Hc.
    change (String c (s ++ post)) with (String c s ++ post).
    rewrite rstrip_app_all_space by done.
    apply rstrip_no_space. by split.
Qed.

(** X20: the module code strips the value of the [GROUP_ID] variable
    before [int] reads it, so the decimal form of an identifier is read as
    that identifier whatever white space surrounds it, the separators 28
    to 31 included, which [int] alone does not accept; a value made of
    white space only leaves [GROUP_ID] unset. *)
Theorem GROUP_ID_of_env_padded pre post g :
  all_space pre → all_space post →
  GROUP_ID_of_env unicode_int (pre ++ Py.str g ++ post) = Some g ∧
  GROUP_ID_of_env unicode_int (pre ++ post) = None.
Proof.
  intros Hpre Hpost. unfold GROUP_ID_of_env. split.
  - destruct (str_shape g) as (Hsp & _ & Hne).
    rewrite strip_padded by done.
    destruct (String.eqb_spec (Py.str g) ""); [done|].
    by rewrite int_of_str_str.
  - pose proof (strip_padded pre "" post Hpre Hpost I) as Hstrip.
    change (pre ++ "" ++ post) with (pre ++ post) in Hstrip.
    by rewrite Hstrip.
Qed.

End ConfigParsing.

(** ** Instances of the further properties *)

Section MoreInstances.

Import Matchmaker.

(** Entries that are not integers are skipped, blanks around an entry and
    empty entries do not matter. *)
Example _parse_admins_example :
  _parse_admins (fun _ => inl Py.ValueError) (Some "12345, abc ,67890,,"%string)
  = [12345; 67890] ∧
  _parse_admins (fun _ => inl Py.ValueError) (Some ""%string) = [] ∧
  _parse_admins (fun _ => inl Py.ValueError) None = [].
Proof. vm_compute. repeat split; reflexivity. Qed.

Lemma run_keeps_invariants_witness :
  pairing_inv (run [RequestPartner 1 WriteOk; RequestPartner 2 OpenFails;
                    EndSession 1 WriteOk DumpFails] (initial NoFile)) ∧
  NoDup (queue (run [RequestPartner 1 WriteOk; RequestPartner 2 OpenFails;
                     EndSession 1 WriteOk DumpFails] (initial NoFile))).
Proof.
  apply (run_keeps_invariants
           [RequestPartner 1 WriteOk; RequestPartner 2 OpenFails;
            EndSession 1 WriteOk DumpFails] (initial NoFile)).
  - repeat constructor; simpl; discriminate.
  - apply well_formed_initial.
Defined.

Lemma end_session_spec_witness :
  (end_session 1 WriteOk WriteOk (mkState [3] {[1 := 2; 2 := 1]} ∅ NoFile)).1
  = Some 2 ∧
  sessions (end_session 1 WriteOk WriteOk
              (mkState [3] {[1 := 2; 2 := 1]} ∅ NoFile)).2 !! 2 = None.
Proof.
  destruct (end_session_spec 1 WriteOk WriteOk
              (mkState [3] {[1 := 2; 2 := 1]} ∅ NoFile))
    as (Hr & _ & _ & _ & _ & Hp).
  - simpl. apply NoDup_singleton.
  - intros p. simpl. intros [= <-]. split; [discriminate|].
    by apply (bool_decide_unpack _).
  - split; [exact Hr | exact (proj1 (Hp 2 eq_refl))].
Defined.

Lemma end_session_twice_witness :
  (end_session 1 WriteOk WriteOk
     (end_session 1 WriteOk WriteOk
        (mkState [1; 3] {[1 := 2; 2 := 1]} ∅ NoFile)).2).1 = None.
Proof.
  apply (end_session_twice 1 WriteOk WriteOk WriteOk WriteOk
           (mkState [1; 3] {[1 := 2; 2 := 1]} ∅ NoFile)).
  simpl. by apply (bool_decide_unpack _).
Defined.

Lemma enqueue_then_cancel_witness :
  sessions (end_session 4 WriteOk WriteOk
              (find_partner 4 WriteOk
                 (mkState [] {[1 := 2; 2 := 1]} ∅ NoFile)).2).2
  = {[1 := 2; 2 := 1]}.
Proof.
  destruct (enqueue_then_cancel 4 WriteOk WriteOk WriteOk
              (mkState [] {[1 := 2; 2 := 1]} ∅ NoFile))
    as (_ & _ & _ & _ & Hs).
  - split; [reflexivity | by apply (bool_decide_unpack _)].
  - reflexivity.
  - exact Hs.
Defined.

Lemma match_then_end_witness :
  (end_session 4 WriteOk WriteOk
     (find_partner 4 WriteOk (mkState [7; 8] ∅ ∅ NoFile)).2).1 = Some 7 ∧
  sessions (end_session 4 WriteOk WriteOk
              (find_partner 4 WriteOk (mkState [7; 8] ∅ ∅ NoFile)).2).2 = ∅ ∧
  queue (end_session 4 WriteOk WriteOk
           (find_partner 4 WriteOk (mkState [7; 8] ∅ ∅ NoFile)).2).2 = [8].
Proof.
  apply (match_then_end 4 WriteOk WriteOk WriteOk
           (mkState [7; 8] ∅ ∅ NoFile) 7 [8]).
  - split; [reflexivity | by apply (bool_decide_unpack _)].
  - reflexivity.
  - discriminate.
  - reflexivity.
Defined.

Lemma find_partner_status_witness :
  status_of 2 (find_partner 2 WriteOk (mkState [1] ∅ ∅ NoFile)).2 = Connected ∧
  status_of 1 (find_partner 2 WriteOk (mkState [1] ∅ ∅ NoFile)).2 = Connected.
Proof.
  refine (find_partner_status 2 WriteOk (mkState [1] ∅ ∅ NoFile) _).
  intros a b Hab. simpl in Hab. by rewrite lookup_empty in Hab.
Defined.

Lemma run_recoverable_witness :
  recoverable (fun _ => inl Py.ValueError)
              (run [RequestPartner 1 WriteOk; RequestPartner 2 WriteOk;
                    EndSession 2 WriteOk WriteOk; RequestPartner 3 WriteOk]
                   (initial NoFile)).
Proof.
  apply (run_recoverable (fun _ => inl Py.ValueError)
           [RequestPartner 1 WriteOk; RequestPartner 2 WriteOk;
            EndSession 2 WriteOk WriteOk; RequestPartner 3 WriteOk]
           (initial NoFile)).
  - repeat constructor.
  - reflexivity.
Defined.

Lemma cmd_anon_next_leaves_partner_witness :
  let st := run [RequestPartner 1 WriteOk; RequestPartner 2 WriteOk;
                 RequestPartner 3 WriteOk] (initial NoFile) in
  let upd := mkUpdate None 1 in
  sessions (cmd_anon_next (fun _ => None) WriteOk WriteOk upd st).1 !! 1 ≠ Some 2 ∧
  status_of 2 (cmd_anon_next (fun _ => None) WriteOk WriteOk upd st).1 = NotInChat ∧
  well_formed (cmd_anon_next (fun _ => None) WriteOk WriteOk upd st).1.
Proof.
  apply (cmd_anon_next_leaves_partner (fun _ => None) WriteOk WriteOk
           (mkUpdate None 1)
           (run [RequestPartner 1 WriteOk; RequestPartner 2 WriteOk;
                 RequestPartner 3 WriteOk] (initial NoFile)) 2).
  - apply run_well_formed; [|apply well_formed_initial].
    repeat constructor; simpl; discriminate.
  - reflexivity.
Defined.

Lemma rate_limited_independent_witness :
  (rate_limited 100.5 7 (rate_limited 100.25 8
                           (mkState [] ∅ {[7 := 100%float]} NoFile)).2).1
  = (rate_limited 100.5 7 (mkState [] ∅ {[7 := 100%float]} NoFile)).1.
Proof.
  apply (rate_limited_independent 100.5 100.25 8 7
           (mkState [] ∅ {[7 := 100%float]} NoFile)).
  discriminate.
Defined.

Lemma rate_limited_throttled_no_effect_witness :
  rate_limited 102 7 (rate_limited 100.5 7
                        (mkState [] ∅ {[7 := 100%float]} NoFile)).2
  = rate_limited 102 7 (mkState [] ∅ {[7 := 100%float]} NoFile).
Proof.
  apply (rate_limited_throttled_no_effect 100.5 7
           (mkState [] ∅ {[7 := 100%float]} NoFile) 102 7).
  vm_compute. reflexivity.
Defined.

Lemma throttled_message_dropped_witness :
  let msg := mkMessage (Some "hi"%string) 5 2 false false false false false
               false false false in
  let upd := mkUpdate (Some msg) 5 in
  let st := mkState [] {[5 := 6; 6 := 5]} {[5 := 100%float]} NoFile in
  (handle_all_messages None [] (fun _ => None) 100.5 upd st).1 = st ∧
  Forall (fun a => is_copy a = false)
         (handle_all_messages None [] (fun _ => None) 100.5 upd st).2.
Proof.
  apply (throttled_message_dropped None [] (fun _ => None) 100.5
           (mkUpdate (Some (mkMessage (Some "hi"%string) 5 2 false false false
                              false false false false false)) 5)
           (mkState [] {[5 := 6; 6 := 5]} {[5 := 100%float]} NoFile)
           (mkMessage (Some "hi"%string) 5 2 false false false false false
              false false false)).
  - reflexivity.
  - reflexivity.
  - by exists 6.
  - vm_compute. reflexivity.
Defined.

Lemma accepted_message_relayed_witness :
  let msg := mkMessage (Some "hi"%string) 5 2 false false false false false
               false false false in
  let upd := mkUpdate (Some msg) 5 in
  let st := mkState [] {[5 := 6; 6 := 5]} {[5 := 100%float]} NoFile in
  CopyMessage 6 5 2 ∈ (handle_all_messages None [] (fun _ => None) 102 upd st).2 ∧
  last_time (handle_all_messages None [] (fun _ => None) 102 upd st).1 !! 5
  = Some 102%float.
Proof.
  apply (accepted_message_relayed None [] (fun _ => None) 102
           (mkUpdate (Some (mkMessage (Some "hi"%string) 5 2 false false false
                              false false false false false)) 5)
           (mkState [] {[5 := 6; 6 := 5]} {[5 := 100%float]} NoFile)
           (mkMessage (Some "hi"%string) 5 2 false false false false false
              false false false) 6).
  - reflexivity.
  - reflexivity.
  - reflexivity.
  - discriminate.
  - vm_compute. reflexivity.
Defined.

Lemma GROUP_ID_of_env_padded_witness :
  GROUP_ID_of_env (fun _ => inl Py.ValueError)
    (String (ascii_of_nat 28) " " ++ Py.str (-1001234567890)
     ++ String (ascii_of_nat 10) "")%string
  = Some (-1001234567890) ∧
  GROUP_ID_of_env (fun _ => inl Py.ValueError)
    (String (ascii_of_nat 28) " " ++ String (ascii_of_nat 10) "")%string
  = None.
Proof.
  apply (GROUP_ID_of_env_padded (fun _ => inl Py.ValueError)
           (String (ascii_of_nat 28) " ") (String (ascii_of_nat 10) "")
           (-1001234567890)).
  - repeat split; reflexivity.
  - repeat split; reflexivity.
Defined.

End MoreInstances.
